(** * dynamodb-reactive: a shallow embedding of the reactive subscription engine

    The development follows the TypeScript sources of the server and client
    packages:

    - [dependency-extractor.ts]: dependency keys, [extractDependencies],
      [extractAffectedKeys], [operationToQueryMetadata], [DependencyTracker];
    - [query-builder.ts]: the [FilterBuilder] constructors;
    - [filter-evaluator.ts]: [evaluateFilter] and its helpers;
    - [handlers/reactive-handler.ts]: [handleRequest], [handleSubscribe],
      [handleUnsubscribe], [handleCall];
    - [handlers/stream-handler.ts]: [processSubscription], [updateQueryState];
    - [client/websocket.ts]: [scheduleReconnect].

    JavaScript strings are modelled by [string]; the operations used by the
    sources ([split], [join], [substring], [startsWith], [includes]) work
    position by position, so the alphabet plays no role.  JavaScript numbers
    are kept abstract: everything the sources do with a number is collected
    in the class [JsHost]. *)

From Stdlib Require Import Ascii ZArith QArith Qminmax Qpower Lia Lqa.
From Stdlib Require String.
From stdpp Require Import gmap strings list pretty.

Set Warnings "-register-all".

(** ** Strings as the sources use them *)

(** [s.split(sep)] for a one-character separator: never empty, [""] splits
    into [[""]]. *)
Fixpoint split (sep : ascii) (s : string) : list string :=
  match s with
  | EmptyString => [EmptyString]
  | String c rest =>
      if Ascii.eqb c sep then EmptyString :: split sep rest
      else match split sep rest with
           | [] => [String c EmptyString]
           | h :: t => String c h :: t
           end
  end.

(** [parts.join(sep)]. *)
Fixpoint join (sep : string) (parts : list string) : string :=
  match parts with
  | [] => EmptyString
  | [p] => p
  | p :: rest => p +:+ sep +:+ join sep rest
  end.

(** [c] occurs in [s]. *)
Fixpoint occurs (c : ascii) (s : string) : bool :=
  match s with
  | EmptyString => false
  | String d rest => Ascii.eqb d c || occurs c rest
  end.

(** [s.startsWith(p)]. *)
Definition startsWith (s p : string) : bool := String.prefix p s.

(** [s.includes(p)]: [p] starts at some position of [s]. *)
Fixpoint includes (s p : string) : bool :=
  String.prefix p s ||
  match s with
  | EmptyString => false
  | String _ rest => includes rest p
  end.

(** [s.substring(0, i)]. *)
Definition substring0 (i : nat) (s : string) : string := String.substring 0 i s.

Definition hash : ascii := "#"%char.
Definition dot : ascii := "."%char.

(** ** JavaScript values *)

(** How a comparison result (a JavaScript number) relates to [0]; [SNaN]
    stands for [NaN], for which every test against [0] is false. *)
Inductive Sign := SNeg | SZero | SPos | SNaN.

Definition gt0 (s : Sign) : bool := match s with SPos => true | _ => false end.
Definition ge0 (s : Sign) : bool :=
  match s with SPos | SZero => true | _ => false end.
Definition lt0 (s : Sign) : bool := match s with SNeg => true | _ => false end.
Definition le0 (s : Sign) : bool :=
  match s with SNeg | SZero => true | _ => false end.

(** What the sources need from the JavaScript number type and from the
    locale. *)
Class JsHost := {
  number : Type;
  (** [a === b] on numbers *)
  number_eqb : number -> number -> bool;
  (** how [a - b] relates to [0] *)
  number_sub_sign : number -> number -> Sign;
  (** [String(n)] *)
  number_to_string : number -> string;
  (** [!!n] : false for [0] and [NaN] *)
  number_truthy : number -> bool;
  (** [n] as a number, for [array.length] *)
  number_of_nat : nat -> number;
  (** how [a.localeCompare(b)] relates to [0] *)
  localeCompare : string -> string -> Sign;
}.

(** JSON-like values together with [undefined].  An object is the list of
    its own enumerable properties in [Object.entries] order. *)
Inductive JsValue `{JsHost} :=
| JUndefined
| JNull
| JBool (b : bool)
| JNum (n : number)
| JStr (s : string)
| JArr (items : list JsValue)
| JObj (entries : list (string * JsValue)).

Section Values.
Context `{JsHost}.

Definition isNullish (v : JsValue) : bool :=
  match v with JUndefined | JNull => true | _ => false end.

Definition isUndefined (v : JsValue) : bool :=
  match v with JUndefined => true | _ => false end.

Definition isString (v : JsValue) : bool :=
  match v with JStr _ => true | _ => false end.

(** [Array.isArray(v)]. *)
Definition isArray (v : JsValue) : bool :=
  match v with JArr _ => true | _ => false end.

(** [!!v]. *)
Definition truthy (v : JsValue) : bool :=
  match v with
  | JUndefined | JNull => false
  | JBool b => b
  | JNum n => number_truthy n
  | JStr s => negb (String.eqb s "")
  | JArr _ | JObj _ => true
  end.

(** [String(v)].  An array prints its elements separated by commas, with
    [null] and [undefined] elements printed as nothing; a plain object
    prints as ["[object Object]"]. *)
Fixpoint toString (v : JsValue) : string :=
  match v with
  | JUndefined => "undefined"
  | JNull => "null"
  | JBool true => "true"
  | JBool false => "false"
  | JNum n => number_to_string n
  | JStr s => s
  | JArr items =>
      join "," (map (fun x => if isNullish x then "" else toString x) items)
  | JObj _ => "[object Object]"
  end.

(** [a === b] where [a] and [b] come from two different documents (a stored
    filter and a record): two objects or arrays are then never the same
    reference. *)
Definition strictEq (a b : JsValue) : bool :=
  match a, b with
  | JUndefined, JUndefined => true
  | JNull, JNull => true
  | JBool x, JBool y => Bool.eqb x y
  | JNum x, JNum y => number_eqb x y
  | JStr x, JStr y => String.eqb x y
  | _, _ => false
  end.

End Values.

(** ** dependency-extractor.ts: dependency keys *)

Module QueryDependency.
Record t := mk {
  tableName : string;
  fieldName : string;
  fieldValue : string;
  indexName : option string;
}.
End QueryDependency.
Abbreviation QueryDependency := QueryDependency.t.

(** [`${tableName}#${fieldName}#${fieldValue}`] *)
Definition createDependencyKey (dependency : QueryDependency) : string :=
  QueryDependency.tableName dependency +:+ "#" +:+
  QueryDependency.fieldName dependency +:+ "#" +:+
  QueryDependency.fieldValue dependency.

(** The object built by [parseDependencyKey] has no [indexName] property. *)
Definition parseDependencyKey (key : string) : option QueryDependency :=
  let parts := split hash key in
  if (length parts <? 3)%nat then None
  else Some {| QueryDependency.tableName := nth 0 parts "";
               QueryDependency.fieldName := nth 1 parts "";
               QueryDependency.fieldValue := join "#" (skipn 2 parts);
               QueryDependency.indexName := None |}.

(** ** core/types.ts: filter conditions *)

(** [FilterCondition] as an interface of optional properties.  [type] is a
    string, since a stored filter may carry any tag; [None] stands for a
    property that is absent (or [undefined]). *)
Module FilterCondition.
Inductive t `{JsHost} := mk {
  type : string;
  operator : option string;
  field : option string;
  value : JsValue;
  value2 : JsValue;
  conditions : option (list t);
}.
Arguments mk {H}.
End FilterCondition.
Abbreviation FilterCondition := FilterCondition.t.

(** [!!s] for an optional string property: present and not empty. *)
Definition truthyString (s : option string) : bool :=
  match s with
  | Some x => negb (String.eqb x "")
  | None => false
  end.

(** [s === lit] for an optional string property. *)
Definition isString_eq (s : option string) (lit : string) : bool :=
  match s with
  | Some x => String.eqb x lit
  | None => false
  end.

(** ** query-builder.ts: the filter builder *)

Section Builder.
Context `{JsHost}.

Definition createCondition (type operator : string) (field : option string)
    (value value2 : JsValue) : FilterCondition :=
  {| FilterCondition.type := type;
     FilterCondition.operator := Some operator;
     FilterCondition.field := field;
     FilterCondition.value := value;
     FilterCondition.value2 := value2;
     FilterCondition.conditions := None |}.

(** An object literal [{ type: 'logical', operator, conditions }]. *)
Definition logicalCondition (operator : string)
    (conditions : list FilterCondition) : FilterCondition :=
  {| FilterCondition.type := "logical";
     FilterCondition.operator := Some operator;
     FilterCondition.field := None;
     FilterCondition.value := JUndefined;
     FilterCondition.value2 := JUndefined;
     FilterCondition.conditions := Some conditions |}.

End Builder.

(** The methods of [FilterBuilderImpl]; a [FieldRef] is represented by its
    [fieldName]. *)
Module FilterBuilderImpl.
Section Methods.
Context `{JsHost}.

Definition gt (fieldName : string) (value : JsValue) : FilterCondition :=
  createCondition "comparison" ">" (Some fieldName) value JUndefined.
Definition gte (fieldName : string) (value : JsValue) : FilterCondition :=
  createCondition "comparison" ">=" (Some fieldName) value JUndefined.
Definition lt (fieldName : string) (value : JsValue) : FilterCondition :=
  createCondition "comparison" "<" (Some fieldName) value JUndefined.
Definition between (fieldName : string) (lower upper : JsValue)
    : FilterCondition :=
  createCondition "function" "BETWEEN" (Some fieldName) lower upper.
Definition beginsWith (fieldName : string) (prefix : string)
    : FilterCondition :=
  createCondition "function" "begins_with" (Some fieldName) (JStr prefix)
    JUndefined.
Definition eq (fieldName : string) (value : JsValue) : FilterCondition :=
  createCondition "comparison" "=" (Some fieldName) value JUndefined.
Definition and (conditions : list FilterCondition) : FilterCondition :=
  logicalCondition "AND" conditions.
Definition or (conditions : list FilterCondition) : FilterCondition :=
  logicalCondition "OR" conditions.
Definition not (condition : FilterCondition) : FilterCondition :=
  logicalCondition "NOT" [condition].

End Methods.
End FilterBuilderImpl.

(** ** types.ts: tracked operations and query metadata *)

Inductive SortOrder := asc | desc.

Module TrackedQueryOperation.
Record t `{JsHost} := mk {
  tableName : string;
  filters : list FilterCondition;
  indexName : option string;
  pkField : string;
  skField : option string;
  sortField : option string;
  sortOrder : option SortOrder;
  limit : option number;
}.
Arguments mk {H}.
End TrackedQueryOperation.
Abbreviation TrackedQueryOperation := TrackedQueryOperation.t.

Module QueryMetadata.
Record t `{JsHost} := mk {
  tableName : string;
  indexName : option string;
  filterConditions : list FilterCondition;
  sortField : option string;
  sortOrder : option SortOrder;
  limit : option number;
}.
Arguments mk {H}.
End QueryMetadata.
Abbreviation QueryMetadata := QueryMetadata.t.

(** ** dependency-extractor.ts: extraction *)

Section DependencyExtractor.
Context `{JsHost}.

(** The dependency pushed for an ['='] comparison. *)
Definition equalityDependency (tableName : string)
    (condition : FilterCondition) (indexName : option string)
    : QueryDependency :=
  {| QueryDependency.tableName := tableName;
     QueryDependency.fieldName :=
       default "" (FilterCondition.field condition);
     QueryDependency.fieldValue :=
       toString (FilterCondition.value condition);
     QueryDependency.indexName := indexName |}.

(** The dependency pushed for a [begins_with] function. *)
Definition prefixDependency (tableName : string)
    (condition : FilterCondition) (indexName : option string)
    : QueryDependency :=
  {| QueryDependency.tableName := tableName;
     QueryDependency.fieldName :=
       default "" (FilterCondition.field condition);
     QueryDependency.fieldValue :=
       "prefix:" +:+ toString (FilterCondition.value condition);
     QueryDependency.indexName := indexName |}.

Fixpoint extractFromCondition (tableName : string)
    (condition : FilterCondition) (indexName : option string)
    {struct condition} : list QueryDependency :=
  if String.eqb (FilterCondition.type condition) "comparison" then
    if isString_eq (FilterCondition.operator condition) "="
       && truthyString (FilterCondition.field condition)
       && negb (isUndefined (FilterCondition.value condition))
    then [equalityDependency tableName condition indexName]
    else []
  else if String.eqb (FilterCondition.type condition) "function" then
    if isString_eq (FilterCondition.operator condition) "begins_with"
       && truthyString (FilterCondition.field condition)
       && truthy (FilterCondition.value condition)
    then [prefixDependency tableName condition indexName]
    else []
  else if String.eqb (FilterCondition.type condition) "logical" then
    match FilterCondition.conditions condition with
    | Some subConditions =>
        flat_map
          (fun subCondition =>
             extractFromCondition tableName subCondition indexName)
          subConditions
    | None => []
    end
  else [].

Definition extractDependencies (operation : TrackedQueryOperation)
    : list QueryDependency :=
  flat_map
    (fun filter =>
       extractFromCondition (TrackedQueryOperation.tableName operation)
         filter (TrackedQueryOperation.indexName operation))
    (TrackedQueryOperation.filters operation).

(** The keys pushed by the inner loop [for (i = 1; i <= length; i++)]. *)
Definition prefixKeys (tableName fieldName fieldValue : string)
    : list string :=
  map (fun i =>
         tableName +:+ "#" +:+ fieldName +:+ "#prefix:" +:+
         substring0 i fieldValue)
      (seq 1 (String.length fieldValue)).

(** The keys pushed for one entry of [Object.entries(item)]. *)
Definition affectedKeysOfEntry (tableName : string)
    (entry : string * JsValue) : list string :=
  let '(fieldName, fieldValue) := entry in
  if isNullish fieldValue then []
  else
    (tableName +:+ "#" +:+ fieldName +:+ "#" +:+ toString fieldValue)
    :: match fieldValue with
       | JStr s => prefixKeys tableName fieldName s
       | _ => []
       end.

(** [item] is given by [Object.entries(item)]. *)
Fixpoint extractAffectedKeys (tableName : string)
    (item : list (string * JsValue)) : list string :=
  match item with
  | [] => []
  | entry :: rest =>
      affectedKeysOfEntry tableName entry ++ extractAffectedKeys tableName rest
  end.









(** [operatorMap[filter.operator ?? ''] ?? filter.operator] for an
    operator table given as a literal. *)
Definition mapOperator (operatorMap : list (string * string))
    (operator : option string) : option string :=
  match list_find (fun kv => String.eqb (fst kv) (default "" operator))
          operatorMap with
  | Some (_, kv) => Some (snd kv)
  | None => operator
  end.

Definition comparisonOperatorMap : list (string * string) :=
  [("=", "eq"); ("<>", "ne"); (">", "gt"); (">=", "gte"); ("<", "lt");
   ("<=", "lte")].
Definition functionOperatorMap : list (string * string) :=
  [("begins_with", "beginsWith"); ("BETWEEN", "between")].
Definition logicalOperatorMap : list (string * string) :=
  [("AND", "and"); ("OR", "or"); ("NOT", "not")].

(** [{ ...filter, operator }] *)
Definition withOperator (filter : FilterCondition) (operator : option string)
    : FilterCondition :=
  {| FilterCondition.type := FilterCondition.type filter;
     FilterCondition.operator := operator;
     FilterCondition.field := FilterCondition.field filter;
     FilterCondition.value := FilterCondition.value filter;
     FilterCondition.value2 := FilterCondition.value2 filter;
     FilterCondition.conditions := FilterCondition.conditions filter |}.

Fixpoint normalizeFilter (filter : FilterCondition) : FilterCondition :=
  if String.eqb (FilterCondition.type filter) "comparison" then
    withOperator filter
      (mapOperator comparisonOperatorMap (FilterCondition.operator filter))
  else if String.eqb (FilterCondition.type filter) "function" then
    withOperator filter
      (mapOperator functionOperatorMap (FilterCondition.operator filter))
  else if String.eqb (FilterCondition.type filter) "logical" then
    match FilterCondition.conditions filter with
    | Some subConditions =>
        {| FilterCondition.type := FilterCondition.type filter;
           FilterCondition.operator :=
             mapOperator logicalOperatorMap (FilterCondition.operator filter);
           FilterCondition.field := FilterCondition.field filter;
           FilterCondition.value := FilterCondition.value filter;
           FilterCondition.value2 := FilterCondition.value2 filter;
           FilterCondition.conditions :=
             Some (map normalizeFilter subConditions) |}
    | None => filter
    end
  else filter.

Definition normalizeFilters (filters : list FilterCondition)
    : list FilterCondition :=
  map normalizeFilter filters.

Definition operationToQueryMetadata (operation : TrackedQueryOperation)
    : QueryMetadata :=
  {| QueryMetadata.tableName := TrackedQueryOperation.tableName operation;
     QueryMetadata.indexName := TrackedQueryOperation.indexName operation;
     QueryMetadata.filterConditions :=
       normalizeFilters (TrackedQueryOperation.filters operation);
     QueryMetadata.sortField := TrackedQueryOperation.sortField operation;
     QueryMetadata.sortOrder := TrackedQueryOperation.sortOrder operation;
     QueryMetadata.limit := TrackedQueryOperation.limit operation |}.

End DependencyExtractor.

(** The class [DependencyTracker]: its one field and its methods. *)
Module DependencyTracker.
Section Methods.
Context `{JsHost}.

Record t := mk { operations : list TrackedQueryOperation }.

Definition new : t := {| operations := [] |}.

Definition track (operation : TrackedQueryOperation) (this : t) : t :=
  {| operations := operations this ++ [operation] |}.

Definition getOperations (this : t) : list TrackedQueryOperation :=
  operations this.

Definition extractAll (this : t) : list QueryDependency :=
  flat_map extractDependencies (operations this).

Definition getDependencyKeys (this : t) : list string :=
  map createDependencyKey (extractAll this).

Definition getQueryMetadata (this : t) : option QueryMetadata :=
  match operations this with
  | [] => None
  | first :: _ => Some (operationToQueryMetadata first)
  end.

Definition getPkField (this : t) : option string :=
  match operations this with
  | [] => None
  | first :: _ => Some (TrackedQueryOperation.pkField first)
  end.

Definition getSkField (this : t) : option string :=
  match operations this with
  | [] => None
  | first :: _ => TrackedQueryOperation.skField first
  end.

Definition clear (this : t) : t := {| operations := [] |}.

End Methods.
End DependencyTracker.
Abbreviation DependencyTracker := DependencyTracker.t.

(** ** filter-evaluator.ts *)

(** The evaluator returns an [option]: [None] stands for a [TypeError]
    thrown by one of the operations that JavaScript refuses on the wrong
    kind of value - reading a property of [null] or [undefined], and calling
    a string method on something that is not a string. *)

Section FilterEvaluator.
Context `{JsHost}.

(** [typeof v === 'object'] (which holds of [null] too). *)
Definition isObjectType (v : JsValue) : bool :=
  match v with JNull | JArr _ | JObj _ => true | _ => false end.

Definition digitOf (c : ascii) : option nat :=
  let n := nat_of_ascii c in
  if (48 <=? n)%nat && (n <=? 57)%nat then Some (n - 48)%nat else None.

Fixpoint parseDigits (acc : nat) (s : string) : option nat :=
  match s with
  | EmptyString => Some acc
  | String c rest =>
      match digitOf c with
      | Some d => parseDigits (10 * acc + d)%nat rest
      | None => None
      end
  end.

(** The array index a property name denotes: decimal digits without a
    leading zero. *)
Definition arrayIndex (s : string) : option nat :=
  match s with
  | EmptyString => None
  | String c rest =>
      if Ascii.eqb c "0"%char
      then (if String.eqb rest "" then Some 0%nat else None)
      else parseDigits 0 s
  end.

(** [value[part]]: a [TypeError] on [null] and [undefined]; the own
    properties of an object; the elements and the [length] of an array and
    of a string.  Members inherited from the prototypes (such as
    [constructor]) are not data and are not modelled. *)
Definition getProperty (value : JsValue) (part : string) : option JsValue :=
  match value with
  | JUndefined | JNull => None
  | JObj entries =>
      match list_find (fun kv => String.eqb (fst kv) part) entries with
      | Some (_, kv) => Some (snd kv)
      | None => Some JUndefined
      end
  | JArr items =>
      if String.eqb part "length"
      then Some (JNum (number_of_nat (length items)))
      else match arrayIndex part with
           | Some i => Some (nth i items JUndefined)
           | None => Some JUndefined
           end
  | JStr s =>
      if String.eqb part "length"
      then Some (JNum (number_of_nat (String.length s)))
      else match arrayIndex part with
           | Some i =>
               Some (if (i <? String.length s)%nat
                     then JStr (String.substring i 1 s) else JUndefined)
           | None => Some JUndefined
           end
  | JBool _ | JNum _ => Some JUndefined
  end.

(** [receiver.startsWith(argument)], [receiver.includes(argument)] and
    [receiver.localeCompare(argument)]: the receiver has to be a string. *)
Definition callStartsWith (receiver argument : JsValue) : option bool :=
  match receiver with
  | JStr s => Some (startsWith s (toString argument))
  | _ => None
  end.

Definition callIncludes (receiver argument : JsValue) : option bool :=
  match receiver with
  | JStr s => Some (includes s (toString argument))
  | _ => None
  end.

Definition callLocaleCompare (receiver argument : JsValue) : option Sign :=
  match receiver with
  | JStr s => Some (localeCompare s (toString argument))
  | _ => None
  end.

(** The loop of [getFieldValue] over the parts of the path. *)
Fixpoint walkPath (value : JsValue) (parts : list string)
    : option JsValue :=
  match parts with
  | [] => Some value
  | part :: rest =>
      if isNullish value then Some JUndefined
      else if negb (isObjectType value) then Some JUndefined
      else next ← getProperty value part; walkPath next rest
  end.

Definition getFieldValue (record : JsValue) (field : string)
    : option JsValue :=
  walkPath record (split dot field).

(** [compareValues]: the result is given by how it relates to [0], which is
    all its callers look at. *)
Definition compareValues (a b : JsValue) : option Sign :=
  if isNullish a then Some (if isNullish b then SZero else SNeg)
  else if isNullish b then Some SPos
  else match a, b with
       | JNum x, JNum y => Some (number_sub_sign x y)
       | JStr _, JStr _ => callLocaleCompare a b
       | JBool x, JBool y =>
           Some (if Bool.eqb x y then SZero else if x then SPos else SNeg)
       | _, _ => callLocaleCompare (JStr (toString a)) (JStr (toString b))
       end.

Definition evaluateComparison (filter : FilterCondition) (record : JsValue)
    : option bool :=
  if negb (truthyString (FilterCondition.field filter))
     || negb (truthyString (FilterCondition.operator filter))
  then Some false
  else
    let operator := default "" (FilterCondition.operator filter) in
    let value := FilterCondition.value filter in
    let value2 := FilterCondition.value2 filter in
    fieldValue ←
      getFieldValue record (default "" (FilterCondition.field filter));
    if String.eqb operator "eq" then Some (strictEq fieldValue value)
    else if String.eqb operator "ne" then
      Some (negb (strictEq fieldValue value))
    else if String.eqb operator "gt" then
      gt0 <$> compareValues fieldValue value
    else if String.eqb operator "gte" then
      ge0 <$> compareValues fieldValue value
    else if String.eqb operator "lt" then
      lt0 <$> compareValues fieldValue value
    else if String.eqb operator "lte" then
      le0 <$> compareValues fieldValue value
    else if String.eqb operator "between" then
      lower ← compareValues fieldValue value;
      if ge0 lower then le0 <$> compareValues fieldValue value2
      else Some false
    else Some false.

Definition evaluateFunction (filter : FilterCondition) (record : JsValue)
    : option bool :=
  if negb (truthyString (FilterCondition.field filter))
     || negb (truthyString (FilterCondition.operator filter))
  then Some false
  else
    let operator := default "" (FilterCondition.operator filter) in
    let value := FilterCondition.value filter in
    fieldValue ←
      getFieldValue record (default "" (FilterCondition.field filter));
    if String.eqb operator "beginsWith" then
      if isString fieldValue && isString value
      then callStartsWith fieldValue value
      else Some false
    else if String.eqb operator "contains" then
      if isString fieldValue && isString value
      then callIncludes fieldValue value
      else Some false
    else Some false.

(** [xs.every(f)] and [xs.some(f)], which stop at the first element that
    decides the result. *)
Fixpoint every {A} (f : A -> option bool) (xs : list A) : option bool :=
  match xs with
  | [] => Some true
  | x :: rest =>
      match f x with
      | Some b => if b then every f rest else Some false
      | None => None
      end
  end.

Fixpoint some {A} (f : A -> option bool) (xs : list A) : option bool :=
  match xs with
  | [] => Some false
  | x :: rest =>
      match f x with
      | Some b => if b then Some true else some f rest
      | None => None
      end
  end.

(** The body of [evaluateLogical], with the evaluation of a sub-condition
    against the record passed as [evaluate]. *)
Definition evaluateLogicalWith (evaluate : FilterCondition -> option bool)
    (filter : FilterCondition) : option bool :=
  match FilterCondition.conditions filter with
  | None => Some false
  | Some conditions =>
      if negb (truthyString (FilterCondition.operator filter)) then Some false
      else
        let operator := default "" (FilterCondition.operator filter) in
        if String.eqb operator "and" then every evaluate conditions
        else if String.eqb operator "or" then some evaluate conditions
        else if String.eqb operator "not" then
          match conditions with
          | [] => Some false
          | first :: _ => negb <$> evaluate first
          end
        else Some false
  end.

Fixpoint evaluateFilter (filter : FilterCondition) (record : JsValue)
    {struct filter} : option bool :=
  if String.eqb (FilterCondition.type filter) "comparison" then
    evaluateComparison filter record
  else if String.eqb (FilterCondition.type filter) "logical" then
    evaluateLogicalWith (fun c => evaluateFilter c record) filter
  else if String.eqb (FilterCondition.type filter) "function" then
    evaluateFunction filter record
  else Some false.

Definition evaluateLogical (filter : FilterCondition) (record : JsValue)
    : option bool :=
  evaluateLogicalWith (fun c => evaluateFilter c record) filter.



Definition knownOperators (type : string) : list string :=
  if String.eqb type "comparison"
  then ["eq"; "ne"; "gt"; "gte"; "lt"; "lte"; "between"]
  else if String.eqb type "logical" then ["and"; "or"; "not"]
  else if String.eqb type "function" then ["beginsWith"; "contains"]
  else [].

Definition knownOperator (filter : FilterCondition) : bool :=
  existsb (isString_eq (FilterCondition.operator filter))
    (knownOperators (FilterCondition.type filter)).


End FilterEvaluator.

(** ** core/types.ts: the rows of the system tables *)

Module QueryEntry.
Record t `{JsHost} := mk {
  pk : string;
  sk : string;
  connectionId : string;
  subscriptionId : string;
  queryMetadata : QueryMetadata;
  lastResult : JsValue;
  dependencies : list string;
  createdAt : Z;
  updatedAt : Z;
  ttl : Z;
}.
Arguments mk {H}.
End QueryEntry.
Abbreviation QueryEntry := QueryEntry.t.

(** The item put into the dependencies table. *)
Module DependencyEntry.
Record t := mk {
  pk : string;
  sk : string;
  connectionId : string;
  subscriptionId : string;
  ttl : Z;
}.
End DependencyEntry.
Abbreviation DependencyEntry := DependencyEntry.t.

(** The two system tables the handlers write, keyed by [(pk, sk)]. *)
Record Store `{JsHost} := mkStore {
  queries : gmap (string * string) QueryEntry;
  dependencies : gmap (string * string) DependencyEntry;
}.
Arguments mkStore {H}.

(** ** Promises and the document client *)

(** A thrown value: an [Error] with its message (a [GoneException] is
    told apart, as the stream handler does with [instanceof]), or something
    that is not an [Error]. *)
Inductive Thrown :=
| ThrownError (message : string)
| ThrownGone (message : string)
| ThrownOther.

(** How a promise settles. *)
Inductive Settled (A : Type) :=
| Fulfilled (a : A)
| Rejected (e : Thrown).
Arguments Fulfilled {A} a.
Arguments Rejected {A} e.

(** The store together with the number of commands sent so far. *)
Record World `{JsHost} := mkWorld {
  store : Store;
  sent : nat;
}.
Arguments mkWorld {H}.

Section Async.
Context `{JsHost}.

(** An [async] computation over the system tables. *)
Definition Async (A : Type) : Type := World -> Settled A * World.

Definition ret {A} (a : A) : Async A := fun w => (Fulfilled a, w).

Definition throw {A} (e : Thrown) : Async A := fun w => (Rejected e, w).

(** [await m] followed by [k]: a rejection of [m] ends the computation. *)
Definition bind {A B} (m : Async A) (k : A -> Async B) : Async B :=
  fun w =>
    match m w with
    | (Fulfilled a, w') => k a w'
    | (Rejected e, w') => (Rejected e, w')
    end.

(** [try { await m } catch (e) { handler e }]. *)
Definition tryCatch {A} (m : Async A) (handler : Thrown -> Async A)
    : Async A :=
  fun w =>
    match m w with
    | (Fulfilled a, w') => (Fulfilled a, w')
    | (Rejected e, w') => handler e w'
    end.

(** [for (const x of xs) { await body x }]. *)
Fixpoint forEach {A} (xs : list A) (body : A -> Async unit) : Async unit :=
  match xs with
  | [] => ret tt
  | x :: rest => bind (body x) (fun _ => forEach rest body)
  end.

(** [faults n] tells whether the [n]-th command sent through the document
    client fails, and with what. *)
Variable faults : nat -> option Thrown.

(** [await docClient.send(command)] for a command that reads [answer] and
    has the effect [effect] on the tables. *)
Definition send {A} (answer : Store -> A) (effect : Store -> Store)
    : Async A :=
  fun w =>
    match faults (sent w) with
    | Some e => (Rejected e, {| store := store w; sent := S (sent w) |})
    | None =>
        (Fulfilled (answer (store w)),
         {| store := effect (store w); sent := S (sent w) |})
    end.

Definition putQuery (entry : QueryEntry) : Async unit :=
  send (fun _ => tt)
    (fun st =>
       {| queries :=
            <[(QueryEntry.pk entry, QueryEntry.sk entry) := entry]>
              (queries st);
          dependencies := dependencies st |}).

Definition getQuery (pk sk : string) : Async (option QueryEntry) :=
  send (fun st => queries st !! (pk, sk)) (fun st => st).

Definition deleteQuery (pk sk : string) : Async unit :=
  send (fun _ => tt)
    (fun st =>
       {| queries := delete (pk, sk) (queries st);
          dependencies := dependencies st |}).

Definition putDependency (entry : DependencyEntry) : Async unit :=
  send (fun _ => tt)
    (fun st =>
       {| queries := queries st;
          dependencies :=
            <[(DependencyEntry.pk entry, DependencyEntry.sk entry) := entry]>
              (dependencies st) |}).

Definition deleteDependency (pk sk : string) : Async unit :=
  send (fun _ => tt)
    (fun st =>
       {| queries := queries st;
          dependencies := delete (pk, sk) (dependencies st) |}).

End Async.

Declare Scope async_scope.
Delimit Scope async_scope with async.
Notation "x <- m ;; k" := (bind m (fun x => k))
  (at level 90, m at level 80, right associativity) : async_scope.
Notation "m ;;; k" := (bind m (fun _ => k))
  (at level 90, right associativity) : async_scope.

(** ** handlers/reactive-handler.ts *)

Inductive ReactiveRequest `{JsHost} :=
| SubscribeRequest (subscriptionId path : string) (input : JsValue)
| UnsubscribeRequest (subscriptionId : string)
| CallRequest (path : string) (input : JsValue)
(** a request whose [type] is none of the three *)
| OtherRequest (type : string) (subscriptionId : option string).

Inductive ReactiveResponse `{JsHost} :=
| SnapshotResponse (subscriptionId : string) (data : JsValue)
| ResultResponse (data : JsValue)
| ErrorResponse (message : string) (subscriptionId : option string).

Section ReactiveHandler.
Context `{JsHost}.
Local Open Scope async_scope.

(** [config.router.execute(path, ctx, input)]: the operations the resolver
    passes to the tracker while it runs, and how the returned promise
    settles.  A missing procedure and an invalid input are rejections.  The
    resolver works on the application's tables, not on the system tables. *)
Variable execute :
  string -> JsValue -> JsValue ->
  list TrackedQueryOperation * Settled JsValue.

(** [config.getContext(connectionId)]. *)
Variable getContext : string -> Settled JsValue.

(** [config.ttlSeconds ?? 3600]. *)
Variable ttlSeconds : Z.

Variable faults : nat -> option Thrown.

(** The tracker after the resolver has run. *)
Definition trackerAfter (operations : list TrackedQueryOperation)
    : DependencyTracker :=
  fold_left (fun tracker operation => DependencyTracker.track operation tracker)
    operations DependencyTracker.new.

(** [queryMetadata ?? { tableName: '', filterConditions: [] }] *)
Definition emptyQueryMetadata : QueryMetadata :=
  {| QueryMetadata.tableName := "";
     QueryMetadata.indexName := None;
     QueryMetadata.filterConditions := [];
     QueryMetadata.sortField := None;
     QueryMetadata.sortOrder := None;
     QueryMetadata.limit := None |}.

(** The [queryEntry] object of [handleSubscribe]. *)
Definition queryEntryOf (connectionId subscriptionId : string)
    (queryMetadata : option QueryMetadata) (dependencyKeys : list string)
    (result : JsValue) (now : Z) : QueryEntry :=
  {| QueryEntry.pk := connectionId;
     QueryEntry.sk := subscriptionId;
     QueryEntry.connectionId := connectionId;
     QueryEntry.subscriptionId := subscriptionId;
     QueryEntry.queryMetadata := default emptyQueryMetadata queryMetadata;
     QueryEntry.lastResult := if isArray result then result else JArr [result];
     QueryEntry.dependencies := dependencyKeys;
     QueryEntry.createdAt := now;
     QueryEntry.updatedAt := now;
     QueryEntry.ttl := (now / 1000 + ttlSeconds)%Z |}.

(** The item put for one dependency key. *)
Definition dependencyEntryOf (key connectionId subscriptionId : string)
    (now : Z) : DependencyEntry :=
  {| DependencyEntry.pk := key;
     DependencyEntry.sk := connectionId +:+ "#" +:+ subscriptionId;
     DependencyEntry.connectionId := connectionId;
     DependencyEntry.subscriptionId := subscriptionId;
     DependencyEntry.ttl := (now / 1000 + ttlSeconds)%Z |}.

(** [now] is the value of [Date.now()]. *)
Definition handleSubscribe (connectionId subscriptionId path : string)
    (input ctx : JsValue) (now : Z) : Async ReactiveResponse :=
  let '(operations, outcome) := execute path ctx input in
  match outcome with
  | Rejected e => throw e
  | Fulfilled result =>
      let dependencyTracker := trackerAfter operations in
      let queryMetadata := DependencyTracker.getQueryMetadata dependencyTracker in
      let dependencyKeys := DependencyTracker.getDependencyKeys dependencyTracker in
      putQuery faults
        (queryEntryOf connectionId subscriptionId queryMetadata dependencyKeys
           result now) ;;;
      forEach dependencyKeys
        (fun key =>
           putDependency faults
             (dependencyEntryOf key connectionId subscriptionId now)) ;;;
      ret (SnapshotResponse subscriptionId result)
  end.

Definition handleUnsubscribe (connectionId subscriptionId : string)
    : Async ReactiveResponse :=
  item <- getQuery faults connectionId subscriptionId ;;
  match item with
  | Some queryEntry =>
      forEach (QueryEntry.dependencies queryEntry)
        (fun key =>
           deleteDependency faults key
             (connectionId +:+ "#" +:+ subscriptionId))
  | None => ret tt
  end ;;;
  deleteQuery faults connectionId subscriptionId ;;;
  ret (ResultResponse (JObj [("success", JBool true)])).

Definition handleCall (path : string) (input ctx : JsValue)
    : Async ReactiveResponse :=
  match snd (execute path ctx input) with
  | Rejected e => throw e
  | Fulfilled result => ret (ResultResponse result)
  end.

(** ['subscriptionId' in request ? request.subscriptionId : undefined] *)
Definition subscriptionIdOf (request : ReactiveRequest) : option string :=
  match request with
  | SubscribeRequest subscriptionId _ _ => Some subscriptionId
  | UnsubscribeRequest subscriptionId => Some subscriptionId
  | CallRequest _ _ => None
  | OtherRequest _ subscriptionId => subscriptionId
  end.

(** The response built in the [catch] block of [handleRequest]. *)
Definition errorResponseOf (e : Thrown) (request : ReactiveRequest)
    : ReactiveResponse :=
  ErrorResponse
    (match e with
     | ThrownError message | ThrownGone message => message
     | ThrownOther => "Unknown error"
     end)
    (subscriptionIdOf request).

(** [handleRequest] awaits [getContext] inside its [try] block, so a failure
    there reaches the [catch] block.  The three sub-handlers are [async]
    functions whose promise is returned without [await]: the [try] statement
    has completed when that promise settles, and the promise of
    [handleRequest] settles the way the promise of the sub-handler does. *)
Definition handleRequest (connectionId : string) (request : ReactiveRequest)
    (now : Z) : Async ReactiveResponse :=
  match getContext connectionId with
  | Rejected e => ret (errorResponseOf e request)
  | Fulfilled ctx =>
      match request with
      | SubscribeRequest subscriptionId path input =>
          handleSubscribe connectionId subscriptionId path input ctx now
      | UnsubscribeRequest subscriptionId =>
          handleUnsubscribe connectionId subscriptionId
      | CallRequest path input => handleCall path input ctx
      | OtherRequest type _ =>
          ret (ErrorResponse ("Unknown request type: " +:+ type) None)
      end
  end.

End ReactiveHandler.

(** ** patcher.ts *)

(** An operation of the [fast-json-patch] package; [None] is a property the
    object does not have. *)
Module Operation.
Record t `{JsHost} := mk {
  op : string;
  path : string;
  value : option JsValue;
  from : option string;
}.
Arguments mk {H}.
End Operation.
Abbreviation Operation := Operation.t.

Module JsonPatch.
Record t `{JsHost} := mk {
  op : string;
  path : string;
  value : JsValue;
  from : option string;
}.
Arguments mk {H}.
End JsonPatch.
Abbreviation JsonPatch := JsonPatch.t.

Section Patcher.
Context `{JsHost}.

(** [compare] and [applyPatch] of [fast-json-patch]: the package is a
    dependency of the repository and is taken as given. *)
Variable compare : JsValue -> JsValue -> list Operation.
Variable applyPatch : JsValue -> list Operation -> Settled JsValue.

Definition generatePatches (oldValue newValue : JsValue) : list JsonPatch :=
  map (fun op =>
         {| JsonPatch.op := Operation.op op;
            JsonPatch.path := Operation.path op;
            JsonPatch.value := default JUndefined (Operation.value op);
            JsonPatch.from := Operation.from op |})
      (compare oldValue newValue).

Definition applyPatches (document : JsValue) (patches : list JsonPatch)
    : Settled JsValue :=
  applyPatch document
    (map (fun patch =>
            {| Operation.op := JsonPatch.op patch;
               Operation.path := JsonPatch.path patch;
               Operation.value :=
                 if isUndefined (JsonPatch.value patch) then None
                 else Some (JsonPatch.value patch);
               Operation.from := JsonPatch.from patch |})
         patches).

Definition hasChanges (oldValue newValue : JsValue) : bool :=
  (0 <? length (generatePatches oldValue newValue))%nat.

End Patcher.

(** ** handlers/stream-handler.ts *)

(** How [apiClient.send(new PostToConnectionCommand(...))] ends. *)
Inductive PostOutcome := Posted | PostGone (message : string) | PostFailed.

Section StreamHandler.
Context `{JsHost}.
Local Open Scope async_scope.

Variable compare : JsValue -> JsValue -> list Operation.

(** The answer of the backing store to the statement built from the
    metadata: the unmarshalled [Items] ([None] when the response has none),
    or a failure. *)
Variable executeStatement : QueryMetadata -> Settled (option (list JsValue)).

(** The transport: connection, subscription and patches to the outcome. *)
Variable postToConnection : string -> string -> list JsonPatch -> PostOutcome.

Variable faults : nat -> option Thrown.

Definition getQueryState (connectionId subscriptionId : string)
    : Async (option QueryEntry) :=
  tryCatch (getQuery faults connectionId subscriptionId)
    (fun _ => ret None).

Definition executeQueryFromMetadata (metadata : QueryMetadata)
    : list JsValue :=
  match executeStatement metadata with
  | Fulfilled items => default [] items
  | Rejected _ => []
  end.

(** [{ ...existing, lastResult: newResult, updatedAt: Date.now() }] *)
Definition updatedEntry (existing : QueryEntry) (newResult : list JsValue)
    (now : Z) : QueryEntry :=
  {| QueryEntry.pk := QueryEntry.pk existing;
     QueryEntry.sk := QueryEntry.sk existing;
     QueryEntry.connectionId := QueryEntry.connectionId existing;
     QueryEntry.subscriptionId := QueryEntry.subscriptionId existing;
     QueryEntry.queryMetadata := QueryEntry.queryMetadata existing;
     QueryEntry.lastResult := JArr newResult;
     QueryEntry.dependencies := QueryEntry.dependencies existing;
     QueryEntry.createdAt := QueryEntry.createdAt existing;
     QueryEntry.updatedAt := now;
     QueryEntry.ttl := QueryEntry.ttl existing |}.

Definition updateQueryState (connectionId subscriptionId : string)
    (newResult : list JsValue) (now : Z) : Async unit :=
  tryCatch
    (existing <- getQueryState connectionId subscriptionId ;;
     match existing with
     | None => ret tt
     | Some existing =>
         getQuery faults connectionId subscriptionId ;;;
         putQuery faults (updatedEntry existing newResult now)
     end)
    (fun _ => ret tt).

Definition sendPatch (connectionId subscriptionId : string)
    (patches : list JsonPatch) : Async unit :=
  match postToConnection connectionId subscriptionId patches with
  | Posted => ret tt
  | PostGone message => throw (ThrownGone message)
  | PostFailed => ret tt
  end.

(** The body is a [TODO] in the source: nothing is deleted. *)
Definition cleanupConnection (connectionId : string) : Async unit := ret tt.

Definition processSubscription (connectionId subscriptionId : string)
    (now : Z) : Async unit :=
  tryCatch
    (queryState <- getQueryState connectionId subscriptionId ;;
     match queryState with
     | None => ret tt
     | Some queryState =>
         let newResult :=
           executeQueryFromMetadata (QueryEntry.queryMetadata queryState) in
         if negb (hasChanges compare (QueryEntry.lastResult queryState)
                    (JArr newResult))
         then ret tt
         else
           let patches :=
             generatePatches compare (QueryEntry.lastResult queryState)
               (JArr newResult) in
           updateQueryState connectionId subscriptionId newResult now ;;;
           sendPatch connectionId subscriptionId patches
     end)
    (fun e =>
       match e with
       | ThrownGone _ => cleanupConnection connectionId
       | _ => ret tt
       end).

End StreamHandler.

(** ** handlers/lambda-handlers.ts *)

(** The stream handler of [createLambdaHandlers] processes a subscription
    the same way, with the reads and the write inlined; its
    [cleanupConnection] deletes the row of the connections table, which is
    neither of the two tables of [Store]. *)
Module LambdaHandlers.
Section Handlers.
Context `{JsHost}.
Local Open Scope async_scope.

Variable compare : JsValue -> JsValue -> list Operation.
Variable executeStatement : QueryMetadata -> Settled (option (list JsValue)).
Variable postToConnection : string -> string -> list JsonPatch -> PostOutcome.
Variable faults : nat -> option Thrown.

Definition cleanupConnection (connectionId : string) : Async unit :=
  tryCatch (send faults (fun _ => tt) (fun st => st)) (fun _ => ret tt).

Definition processSubscription (connectionId subscriptionId : string)
    (now : Z) : Async unit :=
  tryCatch
    (queryState <- getQuery faults connectionId subscriptionId ;;
     match queryState with
     | None => ret tt
     | Some queryState =>
         let newResult :=
           executeQueryFromMetadata executeStatement
             (QueryEntry.queryMetadata queryState) in
         if negb (hasChanges compare (QueryEntry.lastResult queryState)
                    (JArr newResult))
         then ret tt
         else
           let patches :=
             generatePatches compare (QueryEntry.lastResult queryState)
               (JArr newResult) in
           putQuery faults (updatedEntry queryState newResult now) ;;;
           sendPatch postToConnection connectionId subscriptionId patches
     end)
    (fun e =>
       match e with
       | ThrownGone _ => cleanupConnection connectionId
       | _ => ret tt
       end).

End Handlers.
End LambdaHandlers.

(** ** client/websocket.ts: the reconnection schedule *)

Module WebSocketManager.

Inductive ConnectionState := disconnected | connecting | connected | reconnecting.

Record Config := mkConfig {
  autoReconnect : bool;
  reconnectDelay : Q;
  maxReconnectAttempts : Z;
}.

(** The fields of the manager the reconnection logic reads and writes;
    [reconnectTimer] holds the delay of the pending timer. *)
Record t := mk {
  config : Config;
  state : ConnectionState;
  reconnectAttempts : nat;
  reconnectTimer : option Q;
}.

(** [Math.min(reconnectDelay * Math.pow(2, attempts - 1), 30000)] *)
Definition cappedDelay (reconnectDelay : Q) (attempts : nat) : Q :=
  Qmin (reconnectDelay * 2 ^ (Z.of_nat attempts - 1)) 30000%Q.

(** [0.5 + Math.random() * 0.5] *)
Definition jitter (random : Q) : Q := ((1 # 2) + random * (1 # 2))%Q.

(** [random] is the value returned by [Math.random()]; numbers are taken as
    exact rationals. *)
Definition scheduleReconnect (random : Q) (this : t) : t :=
  if (maxReconnectAttempts (config this) <=? Z.of_nat (reconnectAttempts this))%Z
  then this
  else
    let attempts := S (reconnectAttempts this) in
    {| config := config this;
       state := reconnecting;
       reconnectAttempts := attempts;
       reconnectTimer :=
         Some (cappedDelay (reconnectDelay (config this)) attempts
               * jitter random)%Q |}.

(** The [onclose] handler installed by [connect]. *)
Definition onClose (wasClean : bool) (random : Q) (this : t) : t :=
  let closed :=
    {| config := config this;
       state := disconnected;
       reconnectAttempts := reconnectAttempts this;
       reconnectTimer := reconnectTimer this |} in
  if autoReconnect (config this) && negb wasClean
  then scheduleReconnect random closed
  else closed.

(** The [onopen] handler installed by [connect]. *)
Definition onOpen (this : t) : t :=
  {| config := config this;
     state := connected;
     reconnectAttempts := 0;
     reconnectTimer := reconnectTimer this |}.

(** A run of [onclose] events, each with its [wasClean] flag and the
    number [Math.random()] would return. *)
Definition closes (events : list (bool * Q)) (this : t) : t :=
  fold_left (fun manager event => onClose (fst event) (snd event) manager)
    events this.

End WebSocketManager.

(** ** The life of the system tables *)

Section Transitions.
Context `{JsHost}.

Definition emptyStore : Store := {| queries := ∅; dependencies := ∅ |}.

(** Every subscription row holds a list as its [lastResult]. *)
Definition lastResultIsList (st : Store) : Prop :=
  forall key entry,
    queries st !! key = Some entry ->
    isArray (QueryEntry.lastResult entry) = true.

(** One run of a handler that writes the queries table: a request served
    by the reactive handler, or a subscription processed by one of the two
    stream handlers; routers, contexts, clocks, backing stores and failures
    of the document client are arbitrary. *)
Inductive transition : Store -> Store -> Prop :=
| transition_request execute getContext ttlSeconds faults connectionId
    request now w :
    transition (store w)
      (store (snd (handleRequest execute getContext ttlSeconds faults
                     connectionId request now w)))
| transition_stream compare executeStatement postToConnection faults
    connectionId subscriptionId now w :
    transition (store w)
      (store (snd (processSubscription compare executeStatement
                     postToConnection faults connectionId subscriptionId
                     now w)))
| transition_lambda_stream compare executeStatement postToConnection faults
    connectionId subscriptionId now w :
    transition (store w)
      (store (snd (LambdaHandlers.processSubscription compare
                     executeStatement postToConnection faults connectionId
                     subscriptionId now w))).

(** The stores reached from the empty tables. *)
Inductive reachable : Store -> Prop :=
| reachable_empty : reachable emptyStore
| reachable_step st st' : reachable st -> transition st st' -> reachable st'.

(** An [async] computation that keeps [lastResultIsList]. *)
Definition preserves {A} (m : Async A) : Prop :=
  forall w, lastResultIsList (store w) -> lastResultIsList (store (snd (m w))).

(** The dependency keys of the operations a resolver has run. *)
Definition dependencyKeysOf (operations : list TrackedQueryOperation)
    : list string :=
  map createDependencyKey (flat_map extractDependencies operations).

(** The metadata stored for the operations a resolver has run. *)
Definition queryMetadataOf (operations : list TrackedQueryOperation)
    : QueryMetadata :=
  match operations with
  | [] => emptyQueryMetadata
  | first :: _ => operationToQueryMetadata first
  end.

End Transitions.

(** ** A host for concrete runs *)

(** Character-by-character comparison, as [localeCompare] gives on plain
    ASCII letters of one case and on digits. *)
Definition codeUnitCompare (a b : string) : Sign :=
  match String.compare a b with
  | Lt => SNeg
  | Eq => SZero
  | Gt => SPos
  end.

(** The integers among the JavaScript numbers. *)
Definition integerHost : JsHost :=
  {| number := Z;
     number_eqb := Z.eqb;
     number_sub_sign := fun a b =>
       match (a - b ?= 0)%Z with
       | Lt => SNeg
       | Eq => SZero
       | Gt => SPos
       end;
     number_to_string := pretty;
     number_truthy := fun n => negb (n =? 0)%Z;
     number_of_nat := Z.of_nat;
     localeCompare := codeUnitCompare |}.

Section ConcreteInputs.
#[local] Existing Instance integerHost.

(** A query on [Todo] with the given filters. *)
Definition todoQuery (filters : list FilterCondition)
    : TrackedQueryOperation :=
  {| TrackedQueryOperation.tableName := "Todo";
     TrackedQueryOperation.filters := filters;
     TrackedQueryOperation.indexName := None;
     TrackedQueryOperation.pkField := "id";
     TrackedQueryOperation.skField := None;
     TrackedQueryOperation.sortField := None;
     TrackedQueryOperation.sortOrder := Some asc;
     TrackedQueryOperation.limit := None |}.

(** A resolver that runs a query on [Todo] and then one on [User]. *)
Definition twoQueries : list TrackedQueryOperation :=
  [todoQuery [FilterBuilderImpl.eq "listId" (JStr "L1")];
   {| TrackedQueryOperation.tableName := "User";
      TrackedQueryOperation.filters :=
        [FilterBuilderImpl.eq "owner" (JStr "u1")];
      TrackedQueryOperation.indexName := None;
      TrackedQueryOperation.pkField := "id";
      TrackedQueryOperation.skField := None;
      TrackedQueryOperation.sortField := None;
      TrackedQueryOperation.sortOrder := Some asc;
      TrackedQueryOperation.limit := None |}].

(** What that resolver returns: an object, not a list. *)
Definition countResult : JsValue := JObj [("count", JNum 2%Z)].

Definition twoQueriesRouter (path : string) (ctx input : JsValue)
    : list TrackedQueryOperation * Settled JsValue :=
  (twoQueries, Fulfilled countResult).

Definition countSnapshot : ReactiveResponse :=
  SnapshotResponse "s1" countResult.

(** A resolver that throws after its first query. *)
Definition failingRouter (path : string) (ctx input : JsValue)
    : list TrackedQueryOperation * Settled JsValue :=
  ([todoQuery [FilterBuilderImpl.eq "listId" (JStr "L1")]],
   Rejected (ThrownError "boom")).

Definition anyContext (connectionId : string) : Settled JsValue :=
  Fulfilled (JObj [("connectionId", JStr connectionId)]).

Definition noFaults (n : nat) : option Thrown := None.

Definition freshWorld : World := {| store := emptyStore; sent := 0 |}.

Definition afterTwoQueries : Settled ReactiveResponse * World :=
  handleSubscribe twoQueriesRouter 3600 noFaults "c1" "s1" "todos.list"
    JNull (JObj []) 5000 freshWorld.

End ConcreteInputs.

(** ** More of the sources *)

(** How often [c] occurs in [s]. *)
Fixpoint countChar (c : ascii) (s : string) : nat :=
  match s with
  | EmptyString => 0%nat
  | String d rest =>
      if Ascii.eqb d c then S (countChar c rest) else countChar c rest
  end.

(** The double quote, and a name between double quotes;
    [`${name}`] of a missing property is ["undefined"]. *)
Definition doubleQuote : string := String (ascii_of_nat 34) EmptyString.

Definition quoted (name : string) : string :=
  doubleQuote +:+ name +:+ doubleQuote.

Definition template (property : option string) : string :=
  default "undefined" property.

(** *** patcher.ts: [optimizePatches] and [batchPatches] *)

Section PatchOptimizer.
Context `{JsHost}.

(** [seen.has(path)] *)
Definition seenPath (seen : list string) (path : string) : bool :=
  existsb (String.eqb path) seen.

(** The body of the loop, which runs from the last patch to the first:
    [seen] and [optimized] before, and after. *)
Definition optimizeStep (patch : JsonPatch)
    (acc : list string * list JsonPatch) : list string * list JsonPatch :=
  if seenPath (fst acc) (JsonPatch.path patch) then acc
  else (JsonPatch.path patch :: fst acc, patch :: snd acc).

Definition optimizePatches (patches : list JsonPatch) : list JsonPatch :=
  snd (fold_right optimizeStep ([], []) patches).

Definition batchPatches (patchSets : list (list JsonPatch))
    : list JsonPatch :=
  optimizePatches (concat patchSets).

End PatchOptimizer.

(** *** router.ts and procedure.ts *)

Inductive ProcedureType := query | mutation.

(** A procedure: [inputSchema.safeParse] gives the error message or the
    parsed data; the resolver gives the operations it makes the tracker
    see and the way its promise settles. *)
Module ProcedureDefinition.
Record t `{JsHost} := mk {
  type : ProcedureType;
  inputSchema : option (JsValue -> string + JsValue);
  resolver :
    JsValue -> JsValue -> list TrackedQueryOperation * Settled JsValue;
}.
Arguments mk {H}.
End ProcedureDefinition.
Abbreviation ProcedureDefinition := ProcedureDefinition.t.

(** A value of a router definition: a procedure or a nested router, whose
    entries are listed in the order [Object.entries] gives them. *)
Inductive RouterEntry `{JsHost} :=
| Proc (procedure : ProcedureDefinition)
| Sub (entries : list (string * RouterEntry)).

Module Router.
Section Methods.
Context `{JsHost}.

(** [current[part]] on a router object. *)
Definition property (entries : list (string * RouterEntry)) (part : string)
    : option RouterEntry :=
  match list_find (fun kv => String.eqb (fst kv) part) entries with
  | Some (_, kv) => Some (snd kv)
  | None => None
  end.

(** The loop of [getProcedure] followed by the [isProcedure] test.  A
    property of a procedure object (its type, schema or resolver) is not
    an object with [type] and [resolver], so a path that goes through a
    procedure ends in [null]. *)
Fixpoint walk (current : RouterEntry) (parts : list string)
    : option ProcedureDefinition :=
  match parts with
  | [] =>
      match current with
      | Proc procedure => Some procedure
      | Sub _ => None
      end
  | part :: rest =>
      match current with
      | Sub entries =>
          match property entries part with
          | Some next => walk next rest
          | None => None
          end
      | Proc _ => None
      end
  end.

Definition getProcedure (definition : list (string * RouterEntry))
    (path : string) : option ProcedureDefinition :=
  walk (Sub definition) (split dot path).

(** [executeProcedure] of procedure.ts. *)
Definition executeProcedure (procedure : ProcedureDefinition)
    (ctx rawInput : JsValue)
    : list TrackedQueryOperation * Settled JsValue :=
  match ProcedureDefinition.inputSchema procedure with
  | Some safeParse =>
      match safeParse rawInput with
      | inl message => ([], Rejected (ThrownError ("Invalid input: " +:+ message)))
      | inr data => ProcedureDefinition.resolver procedure ctx data
      end
  | None => ProcedureDefinition.resolver procedure ctx rawInput
  end.

Definition execute (definition : list (string * RouterEntry))
    (path : string) (ctx input : JsValue)
    : list TrackedQueryOperation * Settled JsValue :=
  match getProcedure definition path with
  | None => ([], Rejected (ThrownError ("Procedure not found: " +:+ path)))
  | Some procedure => executeProcedure procedure ctx input
  end.

(** [prefix ? `${prefix}.${key}` : key] *)
Definition joinPath (prefix key : string) : string :=
  if String.eqb prefix "" then key else prefix +:+ "." +:+ key.

(** The inner function [traverse] of [getProcedurePaths], which is only
    called on routers. *)
Fixpoint traverse (obj : RouterEntry) (prefix : string) : list string :=
  match obj with
  | Proc _ => []
  | Sub entries =>
      flat_map
        (fun kv =>
           match kv with
           | (key, value) =>
               match value with
               | Proc _ => [joinPath prefix key]
               | Sub _ => traverse value (joinPath prefix key)
               end
           end)
        entries
  end.

Definition getProcedurePaths (definition : list (string * RouterEntry))
    : list string :=
  traverse (Sub definition) "".

Definition isQuery (definition : list (string * RouterEntry))
    (path : string) : bool :=
  match getProcedure definition path with
  | Some procedure =>
      match ProcedureDefinition.type procedure with
      | query => true
      | mutation => false
      end
  | None => false
  end.

Definition isMutation (definition : list (string * RouterEntry))
    (path : string) : bool :=
  match getProcedure definition path with
  | Some procedure =>
      match ProcedureDefinition.type procedure with
      | query => false
      | mutation => true
      end
  | None => false
  end.

(** [target[key] = value]: an existing key keeps its place. *)
Fixpoint assignKey (target : list (string * RouterEntry)) (key : string)
    (value : RouterEntry) : list (string * RouterEntry) :=
  match target with
  | [] => [(key, value)]
  | (k, v) :: rest =>
      if String.eqb k key then (k, value) :: rest
      else (k, v) :: assignKey rest key value
  end.

(** [Object.assign(target, source)], read by key. *)
Definition objectAssign (target source : list (string * RouterEntry))
    : list (string * RouterEntry) :=
  fold_left (fun merged kv => assignKey merged (fst kv) (snd kv))
    source target.

Definition mergeRouters (routers : list (list (string * RouterEntry)))
    : list (string * RouterEntry) :=
  fold_left objectAssign routers [].

End Methods.
End Router.

(** *** partiql-builder.ts *)

Module PartiQLStatement.
Record t `{JsHost} := mk {
  statement : string;
  parameters : list JsValue;
}.
Arguments mk {H}.
End PartiQLStatement.
Abbreviation PartiQLStatement := PartiQLStatement.t.

Section PartiQLBuilder.
Context `{JsHost}.

(** [conditionToPartiQL] pushes onto [parameters] and returns the clause,
    or throws an [Error] with the message given on the left. *)
Fixpoint conditionToPartiQL (condition : FilterCondition)
    (parameters : list JsValue) {struct condition}
    : string + (string * list JsValue) :=
  if String.eqb (FilterCondition.type condition) "comparison" then
    inr (quoted (template (FilterCondition.field condition)) +:+ " " +:+
         template (FilterCondition.operator condition) +:+ " ?",
         parameters ++ [FilterCondition.value condition])
  else if String.eqb (FilterCondition.type condition) "function" then
    if isString_eq (FilterCondition.operator condition) "BETWEEN" then
      inr (quoted (template (FilterCondition.field condition)) +:+
           " BETWEEN ? AND ?",
           parameters ++ [FilterCondition.value condition;
                          FilterCondition.value2 condition])
    else if isString_eq (FilterCondition.operator condition) "begins_with"
    then
      inr ("begins_with(" +:+
           quoted (template (FilterCondition.field condition)) +:+ ", ?)",
           parameters ++ [FilterCondition.value condition])
    else if isString_eq (FilterCondition.operator condition) "contains"
    then
      inr ("contains(" +:+
           quoted (template (FilterCondition.field condition)) +:+ ", ?)",
           parameters ++ [FilterCondition.value condition])
    else
      inl ("Unknown function operator: " +:+
           template (FilterCondition.operator condition))
  else if String.eqb (FilterCondition.type condition) "logical" then
    match FilterCondition.conditions condition with
    | None | Some [] =>
        inl "Logical condition requires at least one sub-condition"
    | Some ((first :: _) as conditions) =>
        if isString_eq (FilterCondition.operator condition) "NOT" then
          match conditionToPartiQL first parameters with
          | inl message => inl message
          | inr (subClause, parameters') =>
              inr ("NOT (" +:+ subClause +:+ ")", parameters')
          end
        else
          match
            (fix clauses (cs : list FilterCondition) (ps : list JsValue)
               : string + (list string * list JsValue) :=
               match cs with
               | [] => inr ([], ps)
               | c :: rest =>
                   match conditionToPartiQL c ps with
                   | inl message => inl message
                   | inr (clause, ps') =>
                       match clauses rest ps' with
                       | inl message => inl message
                       | inr (others, ps'') => inr (clause :: others, ps'')
                       end
                   end
               end) conditions parameters
          with
          | inl message => inl message
          | inr (subClauses, parameters') =>
              inr ("(" +:+
                   join (" " +:+
                         template (FilterCondition.operator condition) +:+
                         " ") subClauses +:+ ")",
                   parameters')
          end
    end
  else inl ("Unknown condition type: " +:+ FilterCondition.type condition).

(** [filters.map((f) => conditionToPartiQL(f, parameters))] *)
Fixpoint whereClauses (filters : list FilterCondition)
    (parameters : list JsValue) : string + (list string * list JsValue) :=
  match filters with
  | [] => inr ([], parameters)
  | f :: rest =>
      match conditionToPartiQL f parameters with
      | inl message => inl message
      | inr (clause, parameters') =>
          match whereClauses rest parameters' with
          | inl message => inl message
          | inr (others, parameters'') => inr (clause :: others, parameters'')
          end
      end
  end.

Definition buildSelectStatement (operation : TrackedQueryOperation)
    : string + PartiQLStatement :=
  let statement :=
    "SELECT * FROM " +:+ quoted (TrackedQueryOperation.tableName operation) in
  let statement :=
    if truthyString (TrackedQueryOperation.indexName operation)
    then statement +:+ "." +:+
         quoted (default "" (TrackedQueryOperation.indexName operation))
    else statement in
  match TrackedQueryOperation.filters operation with
  | [] =>
      inr {| PartiQLStatement.statement := statement;
             PartiQLStatement.parameters := [] |}
  | filters =>
      match whereClauses filters [] with
      | inl message => inl message
      | inr (clauses, parameters) =>
          inr {| PartiQLStatement.statement :=
                   statement +:+ " WHERE " +:+ join " AND " clauses;
                 PartiQLStatement.parameters := parameters |}
      end
  end.







End PartiQLBuilder.

(** *** handlers/stream-handler.ts: the WHERE clause of the replayed query *)

Section WhereClause.
Context `{JsHost}.

(** [value.replace(/'/g, "''")] *)
Fixpoint replaceQuotes (s : string) : string :=
  match s with
  | EmptyString => EmptyString
  | String c rest =>
      if Ascii.eqb c "'"%char
      then String "'"%char (String "'"%char (replaceQuotes rest))
      else String c (replaceQuotes rest)
  end.

Definition escapeValue (value : JsValue) : string :=
  match value with
  | JUndefined | JNull => "NULL"
  | JStr s => "'" +:+ replaceQuotes s +:+ "'"
  | JNum n => number_to_string n
  | JBool b => if b then "TRUE" else "FALSE"
  | JArr _ | JObj _ => "'" +:+ replaceQuotes (toString value) +:+ "'"
  end.




End WhereClause.

(** *** client/websocket.ts: the outbound queue *)

Module OutboundQueue.
Section Queue.
(** The messages of the client, whatever they are. *)
Variable ClientMessage : Type.

(** The fields [send] reads and writes: [socketOpen] tells whether
    [this.ws?.readyState === WebSocket.OPEN]; [transmitted] lists what has
    been handed to [ws.send], in order. *)
Record t := mk {
  state : WebSocketManager.ConnectionState;
  socketOpen : bool;
  messageQueue : list ClientMessage;
  transmitted : list ClientMessage;
}.

Definition isConnected (s : WebSocketManager.ConnectionState) : bool :=
  match s with
  | WebSocketManager.connected => true
  | _ => false
  end.

Definition send (message : ClientMessage) (this : t) : t :=
  if isConnected (state this) && socketOpen this
  then {| state := state this; socketOpen := socketOpen this;
          messageQueue := messageQueue this;
          transmitted := transmitted this ++ [message] |}
  else {| state := state this; socketOpen := socketOpen this;
          messageQueue := messageQueue this ++ [message];
          transmitted := transmitted this |}.

Definition flushMessageQueue (this : t) : t :=
  fold_left (fun manager message => send message manager)
    (messageQueue this)
    {| state := state this; socketOpen := socketOpen this;
       messageQueue := [];
       transmitted := transmitted this |}.

End Queue.
Arguments mk {ClientMessage}.
Arguments state {ClientMessage}.
Arguments socketOpen {ClientMessage}.
Arguments messageQueue {ClientMessage}.
Arguments transmitted {ClientMessage}.
Arguments send {ClientMessage}.
Arguments flushMessageQueue {ClientMessage}.
End OutboundQueue.

(** *** Rows and their keys *)

Section Relating.
Context `{JsHost}.

(** Every row sits under its own keys: a subscription row under
    [(connectionId, subscriptionId)], an index entry under its dependency
    key and [connectionId#subscriptionId]. *)
Definition consistentQueryEntry (key : string * string) (entry : QueryEntry)
    : Prop :=
  key = (QueryEntry.pk entry, QueryEntry.sk entry) /\
  QueryEntry.connectionId entry = QueryEntry.pk entry /\
  QueryEntry.subscriptionId entry = QueryEntry.sk entry.

Definition consistentDependencyEntry (key : string * string)
    (entry : DependencyEntry) : Prop :=
  key = (DependencyEntry.pk entry, DependencyEntry.sk entry) /\
  DependencyEntry.sk entry =
    DependencyEntry.connectionId entry +:+ "#" +:+
    DependencyEntry.subscriptionId entry.

Definition consistentKeys (st : Store) : Prop :=
  (forall key entry,
     queries st !! key = Some entry -> consistentQueryEntry key entry) /\
  (forall key entry,
     dependencies st !! key = Some entry ->
     consistentDependencyEntry key entry).

End Relating.

(** ** Inputs of the stream handler used in examples *)

Section StreamInputs.
#[local] Existing Instance integerHost.

(** A [compare] that replaces the whole document. *)
Definition replaceWhole (oldValue newValue : JsValue) : list Operation :=
  [{| Operation.op := "replace";
      Operation.path := "";
      Operation.value := Some newValue;
      Operation.from := None |}].

(** A [compare] that finds no difference. *)
Definition sameDocument (oldValue newValue : JsValue) : list Operation := [].

(** A backing store that answers every statement with no items. *)
Definition noItems (metadata : QueryMetadata)
    : Settled (option (list JsValue)) :=
  Fulfilled (Some []).

Definition alwaysPosted (connectionId subscriptionId : string)
    (patches : list JsonPatch) : PostOutcome :=
  Posted.

(** A resolver that runs no query. *)
Definition noQueryRouter (path : string) (ctx input : JsValue)
    : list TrackedQueryOperation * Settled JsValue :=
  ([], Fulfilled countResult).

(** The world after the subscribe request of [afterTwoQueries]. *)
Definition subscribedWorld : World :=
  snd (handleRequest twoQueriesRouter anyContext 3600 noFaults "c1"
         (SubscribeRequest "s1" "todos.list" JNull) 5000 freshWorld).

End StreamInputs.

(** *** Router definitions as objects *)

Section RouterObjects.
Context `{JsHost}.

(** The keys of an object are distinct. *)
Fixpoint distinct (keys : list string) : bool :=
  match keys with
  | [] => true
  | key :: rest => negb (existsb (String.eqb key) rest) && distinct rest
  end.

(** A router definition that is an object at every level (distinct keys)
    and whose keys are not empty and hold no ['.']. *)
Fixpoint plainKeys (obj : RouterEntry) : bool :=
  match obj with
  | Proc _ => true
  | Sub entries =>
      distinct (map fst entries) &&
      forallb
        (fun kv =>
           match kv with
           | (key, value) =>
               negb (String.eqb key "") && negb (occurs dot key) &&
               match value with
               | Proc _ => true
               | Sub _ => plainKeys value
               end
           end)
        entries
  end.

End RouterObjects.

Section RouterInputs.
#[local] Existing Instance integerHost.

(** A schema that accepts strings only. *)
Definition stringSchema (rawInput : JsValue) : string + JsValue :=
  match rawInput with
  | JStr _ => inr rawInput
  | _ => inl "Expected string"
  end.

Definition listTodos : ProcedureDefinition :=
  {| ProcedureDefinition.type := query;
     ProcedureDefinition.inputSchema := Some stringSchema;
     ProcedureDefinition.resolver :=
       fun ctx input =>
         ([todoQuery [FilterBuilderImpl.eq "listId" input]],
          Fulfilled (JArr [])) |}.

Definition addTodo : ProcedureDefinition :=
  {| ProcedureDefinition.type := mutation;
     ProcedureDefinition.inputSchema := None;
     ProcedureDefinition.resolver :=
       fun ctx input => ([], Fulfilled input) |}.

(** [{ todos: { list, add }, health }] *)
Definition todosRouter : list (string * RouterEntry) :=
  [("todos", Sub [("list", Proc listTodos); ("add", Proc addTodo)]);
   ("health", Proc addTodo)].

(** [{ todos: { archive } }] *)
Definition archiveRouter : list (string * RouterEntry) :=
  [("todos", Sub [("archive", Proc addTodo)])].

End RouterInputs.

(** *** Names in statements *)

Section Names.
Context `{JsHost}.

Definition questionMark : ascii := "?"%char.

(** The names a condition and its sub-conditions put into a statement -
    fields and operators - hold no ['?']. *)
Fixpoint plainNames (condition : FilterCondition) : bool :=
  negb (occurs questionMark (template (FilterCondition.field condition))) &&
  negb (occurs questionMark (template (FilterCondition.operator condition)))
  && match FilterCondition.conditions condition with
     | Some conditions => forallb plainNames conditions
     | None => true
     end.


End Names.

(** * Properties *)

(** ** Splitting and joining *)

Lemma split_not_nil sep s : split sep s <> [].
Proof.
  destruct s as [|c s]; simpl; [discriminate|].
  destruct (Ascii.eqb c sep); [discriminate|].
  destruct (split sep s); discriminate.
Qed.

Lemma split_no_sep sep s : occurs sep s = false -> split sep s = [s].
Proof.
  induction s as [|c s IH]; simpl; [reflexivity|].
  intros Hocc. apply orb_false_iff in Hocc as [Hc Hs].
  rewrite Hc, (IH Hs). reflexivity.
Qed.

(** Splitting at the first separator. *)
Lemma split_app_sep sep a b :
  occurs sep a = false ->
  split sep (a +:+ String sep b) = a :: split sep b.
Proof.
  induction a as [|c a IH]; simpl; intros Hocc.
  - rewrite Ascii.eqb_refl. reflexivity.
  - apply orb_false_iff in Hocc as [Hc Ha].
    rewrite Hc, (IH Ha). reflexivity.
Qed.

(** The first part of a split holds no separator. *)
Lemma split_head_no_sep sep s h t :
  split sep s = h :: t -> occurs sep h = false.
Proof.
  revert h t. induction s as [|c s IH]; simpl; intros h t Hsplit.
  - injection Hsplit as <- _. reflexivity.
  - destruct (Ascii.eqb c sep) eqn:Hc.
    + injection Hsplit as <- _. reflexivity.
    + destruct (split sep s) as [|h' t'] eqn:Hs.
      * injection Hsplit as <- _. simpl. rewrite Hc. reflexivity.
      * injection Hsplit as <- _. simpl. rewrite Hc. simpl.
        exact (IH h' t' eq_refl).
Qed.

Lemma join_split sep s : join (String sep EmptyString) (split sep s) = s.
Proof.
  induction s as [|c s IH]; simpl; [reflexivity|].
  destruct (Ascii.eqb c sep) eqn:Hc.
  - apply Ascii.eqb_eq in Hc as ->.
    pose proof (split_not_nil sep s) as Hne.
    destruct (split sep s) as [|h t]; [congruence|].
    simpl in IH |- *. rewrite IH. reflexivity.
  - destruct (split sep s) as [|h t] eqn:Hs.
    + exfalso. exact (split_not_nil sep s Hs).
    + destruct t as [|h2 t]; simpl in IH |- *; rewrite <- IH; reflexivity.
Qed.

Lemma split_length_pos sep s : (1 <= length (split sep s))%nat.
Proof.
  pose proof (split_not_nil sep s). destruct (split sep s); simpl; [congruence|lia].
Qed.

(** ** Dependency keys *)

(** The parts of a key whose table and field hold no ['#']. *)
Lemma split_createDependencyKey d :
  occurs hash (QueryDependency.tableName d) = false ->
  occurs hash (QueryDependency.fieldName d) = false ->
  split hash (createDependencyKey d) =
  QueryDependency.tableName d :: QueryDependency.fieldName d ::
  split hash (QueryDependency.fieldValue d).
Proof.
  intros Ht Hf. unfold createDependencyKey.
  change ("#" +:+ QueryDependency.fieldName d +:+ "#" +:+
          QueryDependency.fieldValue d)
    with (String hash (QueryDependency.fieldName d +:+
                       String hash (QueryDependency.fieldValue d))).
  rewrite (split_app_sep _ _ _ Ht), (split_app_sep _ _ _ Hf). reflexivity.
Qed.

Lemma parse_create_parts d :
  occurs hash (QueryDependency.tableName d) = false ->
  occurs hash (QueryDependency.fieldName d) = false ->
  parseDependencyKey (createDependencyKey d) =
  Some {| QueryDependency.tableName := QueryDependency.tableName d;
          QueryDependency.fieldName := QueryDependency.fieldName d;
          QueryDependency.fieldValue := QueryDependency.fieldValue d;
          QueryDependency.indexName := None |}.
Proof.
  intros Ht Hf. unfold parseDependencyKey.
  rewrite (split_createDependencyKey d Ht Hf).
  pose proof (split_length_pos hash (QueryDependency.fieldValue d)) as Hlen.
  destruct (Nat.ltb_spec
              (length (QueryDependency.tableName d ::
                       QueryDependency.fieldName d ::
                       split hash (QueryDependency.fieldValue d))) 3)
    as [Hlt|_]; [simpl in Hlt; lia|].
  simpl. f_equal. f_equal. apply (join_split hash).
Qed.

(** C1 (as amended): for a dependency whose table and field names hold no
    ['#'], parsing the key made from it gives back its table name, its
    field name and its value (which may hold ['#']); the parsed dependency
    has no index name. *)
Theorem parse_create_dependency_key d :
  occurs hash (QueryDependency.tableName d) = false ->
  occurs hash (QueryDependency.fieldName d) = false ->
  parseDependencyKey (createDependencyKey d) =
  Some {| QueryDependency.tableName := QueryDependency.tableName d;
          QueryDependency.fieldName := QueryDependency.fieldName d;
          QueryDependency.fieldValue := QueryDependency.fieldValue d;
          QueryDependency.indexName := None |}.
Proof. exact (parse_create_parts d). Qed.

Lemma parse_create_dependency_key_witness :
  parseDependencyKey
    (createDependencyKey (QueryDependency.mk "Todo" "title" "a#b#c" (Some "byTitle")))
  = Some (QueryDependency.mk "Todo" "title" "a#b#c" None).
Proof.
  apply (parse_create_dependency_key
           (QueryDependency.mk "Todo" "title" "a#b#c" (Some "byTitle")));
    reflexivity.
Defined.

(** The round trip gives back the dependency itself in no other case. *)
Lemma parse_create_dependency_key_exact d :
  parseDependencyKey (createDependencyKey d) = Some d <->
  occurs hash (QueryDependency.tableName d) = false /\
  occurs hash (QueryDependency.fieldName d) = false /\
  QueryDependency.indexName d = None.
Proof.
  split.
  - unfold parseDependencyKey.
    destruct (length (split hash (createDependencyKey d)) <? 3)%nat;
      [discriminate|].
    destruct d as [t f v i]. simpl. intros Heq.
    injection Heq as Ht Hf _ Hi.
    destruct (split hash (createDependencyKey (QueryDependency.mk t f v i)))
      as [|p0 ps] eqn:Hsplit; [exfalso; exact (split_not_nil _ _ Hsplit)|].
    simpl in Ht. subst p0.
    assert (Hnt : occurs hash t = false)
      by exact (split_head_no_sep _ _ _ _ Hsplit).
    unfold createDependencyKey in Hsplit. simpl in Hsplit.
    change ("#" +:+ f +:+ "#" +:+ v)
      with (String hash (f +:+ String hash v)) in Hsplit.
    rewrite (split_app_sep _ _ _ Hnt) in Hsplit.
    injection Hsplit as Hps. subst ps.
    destruct (split hash (f +:+ String hash v)) as [|p1 ps] eqn:Hsplit2;
      [exfalso; exact (split_not_nil _ _ Hsplit2)|].
    simpl in Hf. subst p1.
    assert (Hnf : occurs hash f = false)
      by exact (split_head_no_sep _ _ _ _ Hsplit2).
    auto.
  - intros (Ht & Hf & Hi). rewrite (parse_create_parts d Ht Hf).
    destruct d as [t f v i]. simpl in Hi. subst i. reflexivity.
Qed.

(** C1 as stated fails: an index name is lost, and a ['#'] in the table
    name moves the boundaries. *)
Lemma parse_create_dependency_key_counterexample :
  parseDependencyKey
    (createDependencyKey (QueryDependency.mk "Todo" "listId" "L1" (Some "byList")))
  <> Some (QueryDependency.mk "Todo" "listId" "L1" (Some "byList")) /\
  parseDependencyKey
    (createDependencyKey (QueryDependency.mk "a#b" "f" "v" None))
  <> Some (QueryDependency.mk "a#b" "f" "v" None).
Proof. split; discriminate. Qed.

Example parse_hash_in_table_name :
  parseDependencyKey
    (createDependencyKey (QueryDependency.mk "a#b" "f" "v" None))
  = Some (QueryDependency.mk "a" "b" "f#v" None).
Proof. reflexivity. Qed.

(** ** Affected keys *)



Section AffectedKeys.
Context `{JsHost}.





End AffectedKeys.

Section AffectedKeysExamples.
#[local] Existing Instance integerHost.

Example extractAffectedKeys_todo :
  extractAffectedKeys "Todo"
    [("id", JStr "ab"); ("done", JBool false); ("rank", JNum 7%Z);
     ("note", JNull); ("gone", JUndefined)]
  = ["Todo#id#ab"; "Todo#id#prefix:a"; "Todo#id#prefix:ab";
     "Todo#done#false"; "Todo#rank#7"].
Proof. vm_compute. reflexivity. Qed.

End AffectedKeysExamples.

(** ** Dependencies of a filter tree *)

Section FilterInduction.
Context `{JsHost}.

(** Induction over filter trees, with the hypothesis for every child. *)
Lemma FilterCondition_tree_ind (P : FilterCondition -> Prop) :
  (forall type operator field value value2,
     P (FilterCondition.mk type operator field value value2 None)) ->
  (forall type operator field value value2 conditions,
     Forall P conditions ->
     P (FilterCondition.mk type operator field value value2
          (Some conditions))) ->
  forall condition, P condition.
Proof.
  intros Hleaf Hnode.
  fix IH 1. intros [type operator field value value2 [conditions|]].
  - apply Hnode. induction conditions as [|c cs IHcs]; constructor.
    + apply IH.
    + exact IHcs.
  - apply Hleaf.
Qed.

End FilterInduction.

Section Dependencies.
Context `{JsHost}.








End Dependencies.

Section DependenciesExamples.
#[local] Existing Instance integerHost.

Example extractDependencies_nested :
  extractDependencies
    (todoQuery
       [FilterBuilderImpl.and
          [FilterBuilderImpl.eq "listId" (JStr "L1");
           FilterBuilderImpl.not
             (FilterBuilderImpl.or
                [FilterBuilderImpl.beginsWith "title" "ab";
                 FilterBuilderImpl.gt "rank" (JNum 3%Z)])]])
  = [QueryDependency.mk "Todo" "listId" "L1" None;
     QueryDependency.mk "Todo" "title" "prefix:ab" None].
Proof. vm_compute. reflexivity. Qed.



End DependenciesExamples.

(** ** The filter evaluator *)

Section EvaluatorSafety.
Context `{JsHost}.

Lemma walkPath_total parts : forall value, is_Some (walkPath value parts).
Proof.
  induction parts as [|part rest IH]; intros value; simpl; [eauto|].
  destruct value; simpl; eauto.
  - destruct (String.eqb part "length"); simpl; [apply IH|].
    destruct (arrayIndex part); simpl; apply IH.
  - destruct (list_find _ entries) as [[? ?]|]; simpl; apply IH.
Qed.

Lemma getFieldValue_total record field :
  is_Some (getFieldValue record field).
Proof. apply walkPath_total. Qed.








Lemma evaluateFilter_unknown_operator filter record :
  knownOperator filter = false ->
  evaluateFilter filter record = Some false.
Proof.
  unfold knownOperator, knownOperators.
  destruct filter as [type operator field value value2 conditions].
  cbn [evaluateFilter FilterCondition.type FilterCondition.operator].
  destruct (String.eqb type "comparison").
  - unfold evaluateComparison.
    cbn [FilterCondition.operator FilterCondition.field
         FilterCondition.value FilterCondition.value2].
    destruct operator as [operator|]; simpl;
      [|rewrite orb_true_r; reflexivity].
    intros Hop. repeat (apply orb_false_iff in Hop as [? Hop]).
    destruct (_ || _); [reflexivity|].
    destruct (getFieldValue_total record (default "" field)) as [fv ->].
    simpl. repeat match goal with
                  | Heq : String.eqb _ _ = false |- _ => rewrite Heq; clear Heq
                  end.
    reflexivity.
  - destruct (String.eqb type "logical").
    + unfold evaluateLogicalWith.
      cbn [FilterCondition.operator FilterCondition.conditions].
      destruct conditions as [conditions|]; [|reflexivity].
      destruct operator as [operator|]; simpl; [|reflexivity].
      intros Hop. repeat (apply orb_false_iff in Hop as [? Hop]).
      destruct (negb _); [reflexivity|].
      repeat match goal with
             | Heq : String.eqb _ _ = false |- _ => rewrite Heq; clear Heq
             end.
      reflexivity.
    + destruct (String.eqb type "function"); [|reflexivity].
      unfold evaluateFunction.
      cbn [FilterCondition.operator FilterCondition.field
           FilterCondition.value].
      destruct operator as [operator|]; simpl;
        [|rewrite orb_true_r; reflexivity].
      intros Hop. repeat (apply orb_false_iff in Hop as [? Hop]).
      destruct (_ || _); [reflexivity|].
      destruct (getFieldValue_total record (default "" field)) as [fv ->].
      simpl. repeat match goal with
                    | Heq : String.eqb _ _ = false |- _ => rewrite Heq; clear Heq
                    end.
      reflexivity.
Qed.



Lemma evaluateFilter_comparison filter record :
  String.eqb (FilterCondition.type filter) "comparison" = true ->
  evaluateFilter filter record = evaluateComparison filter record.
Proof.
  intros Hty. apply String.eqb_eq in Hty.
  destruct filter as [type operator field value value2 conditions].
  cbn [evaluateFilter FilterCondition.type] in *. subst type. reflexivity.
Qed.

Lemma evaluateFilter_logical filter record :
  String.eqb (FilterCondition.type filter) "logical" = true ->
  evaluateFilter filter record = evaluateLogical filter record.
Proof.
  intros Hty. apply String.eqb_eq in Hty.
  destruct filter as [type operator field value value2 conditions].
  cbn [evaluateFilter FilterCondition.type] in *. subst type. reflexivity.
Qed.



(** ** [between] *)


(** The builder tags [between] as a function, and [evaluateFunction] has
    no case for it: the filter matches no record, before and after the
    operator is normalized. *)
Lemma between_filter_never_matches fieldName lower upper record :
  evaluateFilter
    (normalizeFilter (FilterBuilderImpl.between fieldName lower upper))
    record = Some false /\
  evaluateFilter (FilterBuilderImpl.between fieldName lower upper) record
    = Some false.
Proof.
  split; apply evaluateFilter_unknown_operator; reflexivity.
Qed.

(** The inclusive test is there, under the [comparison] tag. *)
Lemma evaluateComparison_between fieldName lower upper record fieldValue
    below above :
  String.eqb fieldName "" = false ->
  getFieldValue record fieldName = Some fieldValue ->
  compareValues fieldValue lower = Some below ->
  compareValues fieldValue upper = Some above ->
  evaluateFilter
    {| FilterCondition.type := "comparison";
       FilterCondition.operator := Some "between";
       FilterCondition.field := Some fieldName;
       FilterCondition.value := lower;
       FilterCondition.value2 := upper;
       FilterCondition.conditions := None |} record
  = Some (ge0 below && le0 above).
Proof.
  intros Hname Hfv Hlow Hup.
  cbn [evaluateFilter FilterCondition.type String.eqb Ascii.eqb Bool.eqb].
  unfold evaluateComparison.
  cbn [FilterCondition.field FilterCondition.operator FilterCondition.value
       FilterCondition.value2 truthyString default].
  rewrite Hname. cbn [negb orb String.eqb Ascii.eqb Bool.eqb]. unfold id.
  rewrite Hfv. cbn [mbind option_bind String.eqb Ascii.eqb Bool.eqb].
  rewrite Hlow. cbn [mbind option_bind].
  destruct (ge0 below); [|reflexivity]. rewrite Hup. reflexivity.
Qed.

End EvaluatorSafety.

Section EvaluatorExamples.
#[local] Existing Instance integerHost.


(** C2 at a record inside the bounds: the stored [between] filter gives
    [false] although the field value [5] is neither below [1] nor above
    [10]. *)
Lemma between_filter_failing_input :
  let filter :=
    normalizeFilter (FilterBuilderImpl.between "age" (JNum 1%Z) (JNum 10%Z)) in
  let record := JObj [("age", JNum 5%Z)] in
  evaluateFilter filter record = Some false /\
  getFieldValue record "age" = Some (JNum 5%Z) /\
  ge0 <$> compareValues (JNum 5%Z) (JNum 1%Z) = Some true /\
  le0 <$> compareValues (JNum 5%Z) (JNum 10%Z) = Some true.
Proof. vm_compute. auto. Qed.

Example comparison_between_inclusive :
  evaluateFilter
    {| FilterCondition.type := "comparison";
       FilterCondition.operator := Some "between";
       FilterCondition.field := Some "age";
       FilterCondition.value := JNum 1%Z;
       FilterCondition.value2 := JNum 10%Z;
       FilterCondition.conditions := None |}
    (JObj [("age", JNum 10%Z)]) = Some true.
Proof. vm_compute. reflexivity. Qed.

End EvaluatorExamples.

(** ** The reactive handler *)

Section HandlerFacts.
Context `{JsHost}.
Variable execute :
  string -> JsValue -> JsValue ->
  list TrackedQueryOperation * Settled JsValue.
Variable getContext : string -> Settled JsValue.
Variable ttlSeconds : Z.
Variable faults : nat -> option Thrown.

Lemma operations_fold_track operations tracker :
  DependencyTracker.operations
    (fold_left
       (fun tracker operation => DependencyTracker.track operation tracker)
       operations tracker)
  = DependencyTracker.operations tracker ++ operations.
Proof.
  revert tracker. induction operations as [|op ops IH]; intros tracker; simpl.
  - rewrite app_nil_r. reflexivity.
  - rewrite IH. simpl. rewrite <- app_assoc. reflexivity.
Qed.

Lemma operations_trackerAfter operations :
  DependencyTracker.operations (trackerAfter operations) = operations.
Proof. unfold trackerAfter. rewrite operations_fold_track. reflexivity. Qed.

Lemma getDependencyKeys_trackerAfter operations :
  DependencyTracker.getDependencyKeys (trackerAfter operations)
  = dependencyKeysOf operations.
Proof.
  unfold DependencyTracker.getDependencyKeys, DependencyTracker.extractAll.
  rewrite operations_trackerAfter. reflexivity.
Qed.

Lemma getQueryMetadata_trackerAfter operations :
  default emptyQueryMetadata
    (DependencyTracker.getQueryMetadata (trackerAfter operations))
  = queryMetadataOf operations.
Proof.
  unfold DependencyTracker.getQueryMetadata.
  rewrite operations_trackerAfter. destruct operations; reflexivity.
Qed.

(** The loop that writes the index entries: it leaves the queries table
    alone, writes the entry of every key when no command fails, and
    touches no other entry. *)
Lemma forEach_putDependency connectionId subscriptionId now keys :
  forall w r w',
    forEach keys
      (fun key =>
         putDependency faults
           (dependencyEntryOf ttlSeconds key connectionId subscriptionId now))
      w = (r, w') ->
    queries (store w') = queries (store w) /\
    (r = Fulfilled tt ->
     forall key, In key keys ->
       dependencies (store w')
         !! (key, connectionId +:+ "#" +:+ subscriptionId)
       = Some (dependencyEntryOf ttlSeconds key connectionId subscriptionId
                 now)) /\
    (forall k,
       (forall key, In key keys ->
          k <> (key, connectionId +:+ "#" +:+ subscriptionId)) ->
       dependencies (store w') !! k = dependencies (store w) !! k).
Proof.
  induction keys as [|key0 rest IH]; intros w r w' Hrun.
  - injection Hrun as <- <-.
    split; [reflexivity|]. split; [intros _ key []|reflexivity].
  - cbn [forEach] in Hrun. unfold bind, putDependency, send in Hrun.
    destruct (faults (sent w)) as [e|] eqn:Hfault.
    + injection Hrun as <- <-.
      split; [reflexivity|]. split; [intros Hr; discriminate Hr|reflexivity].
    + apply IH in Hrun as (Hq & Hall & Hother).
      cbn [store queries dependencies DependencyEntry.pk DependencyEntry.sk
           dependencyEntryOf] in Hq, Hother.
      split; [exact Hq|]. split.
      * intros Hr key [<-|Hin]; [|exact (Hall Hr key Hin)].
        destruct (in_dec String.string_dec key0 rest) as [Hin|Hnotin];
          [exact (Hall Hr key0 Hin)|].
        rewrite Hother.
        -- apply lookup_insert_eq.
        -- intros key Hin Heq. injection Heq as <-. exact (Hnotin Hin).
      * intros k Hk. rewrite Hother.
        -- apply lookup_insert_ne. intros <-.
           exact (Hk key0 (or_introl eq_refl) eq_refl).
        -- intros key Hin. apply Hk. right. exact Hin.
Qed.

(** What a subscribe that ends with a response has done. *)
Lemma handleSubscribe_fulfilled connectionId subscriptionId path input ctx
    now w response w' :
  handleSubscribe execute ttlSeconds faults connectionId subscriptionId path
    input ctx now w = (Fulfilled response, w') ->
  exists operations result,
    execute path ctx input = (operations, Fulfilled result) /\
    response = SnapshotResponse subscriptionId result /\
    queries (store w') =
      <[(connectionId, subscriptionId) :=
          queryEntryOf ttlSeconds connectionId subscriptionId
            (Some (queryMetadataOf operations))
            (dependencyKeysOf operations) result now]>
        (queries (store w)) /\
    (forall key, In key (dependencyKeysOf operations) ->
       dependencies (store w')
         !! (key, connectionId +:+ "#" +:+ subscriptionId)
       = Some (dependencyEntryOf ttlSeconds key connectionId subscriptionId
                 now)) /\
    (forall k,
       (forall key, In key (dependencyKeysOf operations) ->
          k <> (key, connectionId +:+ "#" +:+ subscriptionId)) ->
       dependencies (store w') !! k = dependencies (store w) !! k).
Proof.
  unfold handleSubscribe.
  destruct (execute path ctx input) as [operations [result|e]] eqn:Hexec;
    [|intros Hrun; discriminate Hrun].
  rewrite getDependencyKeys_trackerAfter.
  unfold bind at 1, putQuery at 1, send at 1.
  destruct (faults (sent w)) as [e|]; [intros Hrun; discriminate Hrun|].
  unfold bind at 1.
  match goal with
  | |- context [forEach ?keys ?body ?w1] =>
      pose proof (forEach_putDependency connectionId subscriptionId now
                    keys w1) as Hloop;
      destruct (forEach keys body w1) as [[[]|e] w2] eqn:Hrun
  end; [|intros Heq; discriminate Heq].
  specialize (Hloop _ _ eq_refl).
  unfold ret. intros Heq. injection Heq as <- <-.
  cbn [store queries dependencies] in Hloop.
  destruct Hloop as (Hq & Hall & Hother).
  exists operations, result. split; [reflexivity|]. split; [reflexivity|].
  split; [|split; [exact (Hall eq_refl)|exact Hother]].
  rewrite Hq. unfold queryEntryOf at 1. cbn [QueryEntry.pk QueryEntry.sk].
  f_equal. unfold queryEntryOf. f_equal.
  apply getQueryMetadata_trackerAfter.
Qed.

(** C3 (as amended): a subscribe that succeeds stores the query metadata
    of the first tracked operation alone, and stores on the subscription
    and writes to the index the dependency keys of all the tracked
    operations, in the order they were tracked; it touches no other index
    entry. *)
Theorem subscribe_persists_tracked connectionId subscriptionId path input
    ctx now w response w' :
  handleSubscribe execute ttlSeconds faults connectionId subscriptionId path
    input ctx now w = (Fulfilled response, w') ->
  exists operations result entry,
    execute path ctx input = (operations, Fulfilled result) /\
    queries (store w') !! (connectionId, subscriptionId) = Some entry /\
    QueryEntry.queryMetadata entry =
      match operations with
      | [] => emptyQueryMetadata
      | first :: _ => operationToQueryMetadata first
      end /\
    QueryEntry.dependencies entry =
      map createDependencyKey (flat_map extractDependencies operations) /\
    (forall key, In key (QueryEntry.dependencies entry) ->
       dependencies (store w')
         !! (key, connectionId +:+ "#" +:+ subscriptionId)
       = Some (dependencyEntryOf ttlSeconds key connectionId subscriptionId
                 now)) /\
    (forall k,
       dependencies (store w') !! k <> dependencies (store w) !! k ->
       exists key, In key (QueryEntry.dependencies entry) /\
                   k = (key, connectionId +:+ "#" +:+ subscriptionId)).
Proof.
  intros Hrun.
  apply handleSubscribe_fulfilled in Hrun
    as (operations & result & Hexec & _ & Hq & Hall & Hother).
  exists operations, result. eexists.
  split; [exact Hexec|].
  split; [rewrite Hq; apply lookup_insert_eq|].
  split; [reflexivity|]. split; [reflexivity|].
  split; [exact Hall|].
  cbn [queryEntryOf QueryEntry.dependencies].
  fold (dependencyKeysOf operations).
  intros [k1 k2] Hne.
  destruct (in_dec String.string_dec k1 (dependencyKeysOf operations))
    as [Hin|Hnotin].
  - destruct (String.string_dec k2
                (connectionId +:+ "#" +:+ subscriptionId)) as [->|Hk2].
    + exists k1. auto.
    + exfalso. apply Hne, Hother. intros key _ Heq. congruence.
  - exfalso. apply Hne, Hother. intros key Hin Heq.
    injection Heq as -> _. exact (Hnotin Hin).
Qed.

(** C8 on the code: when the resolver fails, no command has been sent and
    the tables are as before; and the promise of [handleRequest] is
    rejected with the resolver's error - the [catch] block is not entered,
    so no error response is made. *)
Theorem handleRequest_subscribe_resolver_failure connectionId
    subscriptionId path input ctx now w operations e :
  getContext connectionId = Fulfilled ctx ->
  execute path ctx input = (operations, Rejected e) ->
  handleRequest execute getContext ttlSeconds faults connectionId
    (SubscribeRequest subscriptionId path input) now w
  = (Rejected e, w).
Proof.
  intros Hctx Hexec. unfold handleRequest, handleSubscribe.
  rewrite Hctx, Hexec. reflexivity.
Qed.

(** A failure of [getContext], which is awaited inside the [try] block,
    does give an error response. *)
Lemma handleRequest_context_failure connectionId request now w e :
  getContext connectionId = Rejected e ->
  handleRequest execute getContext ttlSeconds faults connectionId request
    now w
  = (Fulfilled (errorResponseOf e request), w).
Proof. intros Hctx. unfold handleRequest. rewrite Hctx. reflexivity. Qed.

End HandlerFacts.

(** ** The shape of [lastResult] *)

Section LastResult.
Context `{JsHost}.

Lemma preserves_ret {A} (a : A) : preserves (ret a).
Proof. intros w Hw. exact Hw. Qed.

Lemma preserves_throw {A} e : preserves (@throw _ A e).
Proof. intros w Hw. exact Hw. Qed.

Lemma preserves_bind {A B} (m : Async A) (k : A -> Async B) :
  preserves m -> (forall a, preserves (k a)) -> preserves (bind m k).
Proof.
  intros Hm Hk w Hw. unfold bind. specialize (Hm w Hw).
  destruct (m w) as [[a|e] w1]; [apply Hk|]; exact Hm.
Qed.

Lemma preserves_tryCatch {A} (m : Async A) handler :
  preserves m -> (forall e, preserves (handler e)) ->
  preserves (tryCatch m handler).
Proof.
  intros Hm Hh w Hw. unfold tryCatch. specialize (Hm w Hw).
  destruct (m w) as [[a|e] w1]; [|apply Hh]; exact Hm.
Qed.

Lemma preserves_forEach {A} (xs : list A) body :
  (forall x, preserves (body x)) -> preserves (forEach xs body).
Proof.
  intros Hbody. induction xs as [|x xs IH]; cbn [forEach].
  - apply preserves_ret.
  - apply preserves_bind; [apply Hbody|intros _; exact IH].
Qed.

Lemma preserves_send {A} faults (answer : Store -> A) effect :
  (forall st, lastResultIsList st -> lastResultIsList (effect st)) ->
  preserves (send faults answer effect).
Proof.
  intros Heffect w Hw. unfold send.
  destruct (faults (sent w)); cbn [snd store]; auto.
Qed.

Lemma preserves_putQuery faults entry :
  isArray (QueryEntry.lastResult entry) = true ->
  preserves (putQuery faults entry).
Proof.
  intros Hentry. apply preserves_send. intros st Hst key e.
  cbn [queries]. rewrite lookup_insert.
  destruct (decide _) as [_|_]; [|apply Hst].
  intros Heq. injection Heq as <-. exact Hentry.
Qed.

Lemma preserves_getQuery faults pk sk : preserves (getQuery faults pk sk).
Proof. apply preserves_send. auto. Qed.

Lemma preserves_deleteQuery faults pk sk :
  preserves (deleteQuery faults pk sk).
Proof.
  apply preserves_send. intros st Hst key e. cbn [queries].
  intros Hlookup. apply lookup_delete_Some in Hlookup as [_ Hlookup].
  exact (Hst _ _ Hlookup).
Qed.

Lemma preserves_putDependency faults entry :
  preserves (putDependency faults entry).
Proof. apply preserves_send. intros st Hst. exact Hst. Qed.

Lemma preserves_deleteDependency faults pk sk :
  preserves (deleteDependency faults pk sk).
Proof. apply preserves_send. intros st Hst. exact Hst. Qed.

Lemma isArray_queryEntryOf ttlSeconds connectionId subscriptionId
    queryMetadata dependencyKeys result now :
  isArray
    (QueryEntry.lastResult
       (queryEntryOf ttlSeconds connectionId subscriptionId queryMetadata
          dependencyKeys result now)) = true.
Proof. cbn. destruct result; reflexivity. Qed.

Lemma preserves_handleRequest execute getContext ttlSeconds faults
    connectionId request now :
  preserves
    (handleRequest execute getContext ttlSeconds faults connectionId request
       now).
Proof.
  unfold handleRequest.
  destruct (getContext connectionId) as [ctx|e]; [|apply preserves_ret].
  destruct request as [subscriptionId path input|subscriptionId
                      |path input|type subscriptionId].
  - unfold handleSubscribe.
    destruct (execute path ctx input) as [operations [result|e]];
      [|apply preserves_throw].
    apply preserves_bind;
      [apply preserves_putQuery, isArray_queryEntryOf|intros _].
    apply preserves_bind; [|intros _; apply preserves_ret].
    apply preserves_forEach. intros key. apply preserves_putDependency.
  - unfold handleUnsubscribe.
    apply preserves_bind; [apply preserves_getQuery|intros item].
    apply preserves_bind.
    + destruct item as [queryEntry|]; [|apply preserves_ret].
      apply preserves_forEach. intros key. apply preserves_deleteDependency.
    + intros _. apply preserves_bind;
        [apply preserves_deleteQuery|intros _; apply preserves_ret].
  - unfold handleCall.
    destruct (snd (execute path ctx input));
      [apply preserves_ret|apply preserves_throw].
  - apply preserves_ret.
Qed.

Lemma preserves_processSubscription compare executeStatement
    postToConnection faults connectionId subscriptionId now :
  preserves
    (processSubscription compare executeStatement postToConnection faults
       connectionId subscriptionId now).
Proof.
  assert (HgetState : forall c s, preserves (getQueryState faults c s)).
  { intros c s. apply preserves_tryCatch;
      [apply preserves_getQuery|intros _; apply preserves_ret]. }
  unfold processSubscription. apply preserves_tryCatch.
  - apply preserves_bind; [apply HgetState|intros [queryState|]];
      [|apply preserves_ret].
    destruct (negb _); [apply preserves_ret|].
    apply preserves_bind.
    + unfold updateQueryState. apply preserves_tryCatch;
        [|intros _; apply preserves_ret].
      apply preserves_bind; [apply HgetState|intros [existing|]];
        [|apply preserves_ret].
      apply preserves_bind; [apply preserves_getQuery|intros _].
      apply preserves_putQuery. reflexivity.
    + intros _. unfold sendPatch.
      destruct (postToConnection _ _ _);
        [apply preserves_ret|apply preserves_throw|apply preserves_ret].
  - intros [message|message|]; apply preserves_ret.
Qed.

Lemma preserves_lambda_processSubscription compare executeStatement
    postToConnection faults connectionId subscriptionId now :
  preserves
    (LambdaHandlers.processSubscription compare executeStatement
       postToConnection faults connectionId subscriptionId now).
Proof.
  unfold LambdaHandlers.processSubscription. apply preserves_tryCatch.
  - apply preserves_bind; [apply preserves_getQuery|intros [queryState|]];
      [|apply preserves_ret].
    destruct (negb _); [apply preserves_ret|].
    apply preserves_bind; [apply preserves_putQuery; reflexivity|].
    intros _. unfold sendPatch.
    destruct (postToConnection _ _ _);
      [apply preserves_ret|apply preserves_throw|apply preserves_ret].
  - intros [message|message|]; try apply preserves_ret.
    unfold LambdaHandlers.cleanupConnection. apply preserves_tryCatch;
      [apply preserves_send; auto|intros _; apply preserves_ret].
Qed.

Lemma transition_preserves st st' :
  transition st st' -> lastResultIsList st -> lastResultIsList st'.
Proof.
  intros [execute getContext ttlSeconds faults connectionId request now w
         |compare executeStatement postToConnection faults connectionId
            subscriptionId now w
         |compare executeStatement postToConnection faults connectionId
            subscriptionId now w].
  - apply preserves_handleRequest.
  - apply preserves_processSubscription.
  - apply preserves_lambda_processSubscription.
Qed.

(** C10: every subscription row of a store reached from the empty tables
    has a list as [lastResult]; a subscribe that succeeds stores the
    procedure result itself when it is a list and a one-element list
    holding it otherwise, while its snapshot response carries the result
    as the procedure returned it. *)
Theorem lastResult_always_list :
  (forall st, reachable st -> lastResultIsList st) /\
  (forall execute ttlSeconds faults connectionId subscriptionId path input
          ctx now w response w',
     handleSubscribe execute ttlSeconds faults connectionId subscriptionId
       path input ctx now w = (Fulfilled response, w') ->
     exists result entry,
       response = SnapshotResponse subscriptionId result /\
       queries (store w') !! (connectionId, subscriptionId) = Some entry /\
       QueryEntry.lastResult entry =
         if isArray result then result else JArr [result]).
Proof.
  split.
  - induction 1 as [|st st' _ IH Hstep].
    + intros key entry Hlookup. cbn in Hlookup.
      rewrite lookup_empty in Hlookup. discriminate.
    + exact (transition_preserves _ _ Hstep IH).
  - intros execute ttlSeconds faults connectionId subscriptionId path input
      ctx now w response w' Hrun.
    apply handleSubscribe_fulfilled in Hrun
      as (operations & result & _ & -> & Hq & _).
    exists result. eexists. split; [reflexivity|].
    split; [rewrite Hq; apply lookup_insert_eq|reflexivity].
Qed.

End LastResult.

Section HandlerExamples.
#[local] Existing Instance integerHost.

Example afterTwoQueries_keys :
  QueryEntry.dependencies <$>
    (queries (store (snd afterTwoQueries)) !! ("c1", "s1"))
  = Some ["Todo#listId#L1"; "User#owner#u1"].
Proof. vm_compute. reflexivity. Qed.

Lemma subscribe_persists_tracked_witness :
  exists entry,
    queries (store (snd afterTwoQueries)) !! ("c1", "s1") = Some entry /\
    QueryEntry.queryMetadata entry =
      operationToQueryMetadata
        (todoQuery [FilterBuilderImpl.eq "listId" (JStr "L1")]) /\
    QueryEntry.dependencies entry = ["Todo#listId#L1"; "User#owner#u1"].
Proof.
  destruct (subscribe_persists_tracked (H := integerHost)
              twoQueriesRouter 3600 noFaults
              "c1" "s1" "todos.list" JNull (JObj []) 5000 freshWorld
              countSnapshot
              (snd afterTwoQueries) ltac:(vm_compute; reflexivity))
    as (operations & result & entry & Hexec & Hentry & Hmeta & Hdeps & _).
  injection Hexec as <- _.
  exists entry. split; [exact Hentry|]. split; [exact Hmeta|exact Hdeps].
Defined.

(** C3 as stated fails: the key of the second tracked operation is stored
    on the subscription and written to the index. *)
Lemma first_operation_only_counterexample :
  QueryEntry.dependencies <$>
    (queries (store (snd afterTwoQueries)) !! ("c1", "s1"))
  <> Some (map createDependencyKey
             (extractDependencies
                (todoQuery [FilterBuilderImpl.eq "listId" (JStr "L1")]))) /\
  dependencies (store (snd afterTwoQueries)) !! ("User#owner#u1", "c1#s1")
  = Some (dependencyEntryOf 3600%Z "User#owner#u1" "c1" "s1" 5000%Z).
Proof. split; [vm_compute; discriminate|vm_compute; reflexivity]. Qed.

(** C8 at a resolver that throws: nothing is written, and the promise of
    [handleRequest] is rejected instead of being fulfilled with an error
    response. *)
Lemma handleRequest_subscribe_resolver_failure_witness :
  handleRequest failingRouter anyContext 3600 noFaults "c1"
    (SubscribeRequest "s1" "todos.list" JNull) 5000 freshWorld
  = (Rejected (ThrownError "boom"), freshWorld).
Proof.
  eapply handleRequest_subscribe_resolver_failure; reflexivity.
Defined.

Lemma lastResult_always_list_witness :
  lastResultIsList
    (store (snd (handleRequest twoQueriesRouter anyContext 3600 noFaults
                   "c1" (SubscribeRequest "s1" "todos.list" JNull) 5000
                   freshWorld))) /\
  exists entry,
    queries (store (snd afterTwoQueries)) !! ("c1", "s1") = Some entry /\
    QueryEntry.lastResult entry = JArr [countResult].
Proof.
  split.
  - apply (proj1 lastResult_always_list).
    apply (reachable_step (store freshWorld)); [apply reachable_empty|].
    apply transition_request.
  - destruct (proj2 (lastResult_always_list (H := integerHost))
                twoQueriesRouter 3600%Z noFaults
                "c1" "s1" "todos.list" JNull (JObj []) 5000%Z freshWorld
                countSnapshot
                (snd afterTwoQueries) ltac:(vm_compute; reflexivity))
      as (result & entry & Hresp & Hentry & Hlast).
    injection Hresp as <-.
    exists entry. split; [exact Hentry|exact Hlast].
Defined.

Example snapshot_is_unwrapped :
  fst afterTwoQueries
  = Fulfilled (SnapshotResponse "s1" countResult).
Proof. vm_compute. reflexivity. Qed.

End HandlerExamples.

(** ** Reconnection *)

Section Reconnect.
Import WebSocketManager.
Local Open Scope Q_scope.

Lemma jitter_bounds random :
  0 <= random -> random < 1 -> 1 # 2 <= jitter random /\ jitter random <= 1.
Proof. unfold jitter. intros Hlo Hhi. split; lra. Qed.

Lemma cappedDelay_nonneg reconnectDelay attempts :
  0 <= reconnectDelay -> 0 <= cappedDelay reconnectDelay attempts.
Proof.
  intros Hdelay. unfold cappedDelay. apply Q.min_glb; [|discriminate].
  apply Qmult_le_0_compat; [exact Hdelay|].
  apply Qpower_0_le. discriminate.
Qed.

Lemma scheduleReconnect_exhausted random this :
  (maxReconnectAttempts (config this) <= Z.of_nat (reconnectAttempts this))%Z ->
  scheduleReconnect random this = this.
Proof.
  intros Hmax. unfold scheduleReconnect.
  destruct (Z.leb_spec (maxReconnectAttempts (config this))
              (Z.of_nat (reconnectAttempts this))); [reflexivity|lia].
Qed.

Lemma closes_exhausted events : forall this,
  (maxReconnectAttempts (config this) <= Z.of_nat (reconnectAttempts this))%Z ->
  let final := closes events this in
  config final = config this /\
  reconnectAttempts final = reconnectAttempts this /\
  reconnectTimer final = reconnectTimer this /\
  (events <> [] -> state final = disconnected).
Proof.
  unfold closes.
  induction events as [|[wasClean random] events IH]; intros this Hmax.
  - cbn. repeat split. intros Hne. exfalso. exact (Hne eq_refl).
  - cbn [fold_left fst snd].
    assert (Hnext : onClose wasClean random this =
                    {| config := config this; state := disconnected;
                       reconnectAttempts := reconnectAttempts this;
                       reconnectTimer := reconnectTimer this |}).
    { unfold onClose. destruct (_ && _); [|reflexivity].
      apply scheduleReconnect_exhausted. exact Hmax. }
    rewrite Hnext.
    destruct (IH {| config := config this; state := disconnected;
                    reconnectAttempts := reconnectAttempts this;
                    reconnectTimer := reconnectTimer this |} Hmax)
      as (Hc & Ha & Ht & Hs).
    cbn zeta in Hc, Ha, Ht, Hs. cbn zeta.
    split; [exact Hc|]. split; [exact Ha|]. split; [exact Ht|].
    intros _. destruct events as [|event events]; [reflexivity|].
    apply Hs. discriminate.
Qed.

(** C9: the [n]-th reconnect attempt, [1 <= n <= maxReconnectAttempts], is
    scheduled after [min(reconnectDelay * 2^(n-1), 30000)] times the jitter
    factor [0.5 + random * 0.5], which lies in [[0.5, 1]] for the [random]
    in [[0, 1)] that [Math.random()] returns, so that the delay lies between
    half the capped value and the capped value; and once
    [maxReconnectAttempts] attempts have been made, no close of the
    connection schedules another one. *)
Theorem scheduleReconnect_backoff this random :
  0 <= random -> random < 1 ->
  let n := S (reconnectAttempts this) in
  let capped :=
    Qmin (reconnectDelay (config this) * 2 ^ (Z.of_nat n - 1)) 30000 in
  ((Z.of_nat n <= maxReconnectAttempts (config this))%Z ->
   exists delay,
     reconnectTimer (scheduleReconnect random this) = Some delay /\
     reconnectAttempts (scheduleReconnect random this) = n /\
     state (scheduleReconnect random this) = reconnecting /\
     delay == capped * jitter random /\
     1 # 2 <= jitter random /\ jitter random <= 1 /\
     (0 <= reconnectDelay (config this) ->
      capped * (1 # 2) <= delay /\ delay <= capped)) /\
  ((maxReconnectAttempts (config this) <= Z.of_nat (reconnectAttempts this))%Z ->
   scheduleReconnect random this = this /\
   forall events,
     reconnectTimer (closes events this) = reconnectTimer this /\
     reconnectAttempts (closes events this) = reconnectAttempts this).
Proof.
  intros Hlo Hhi n capped. split.
  - intros Hn. unfold scheduleReconnect.
    destruct (Z.leb_spec (maxReconnectAttempts (config this))
                (Z.of_nat (reconnectAttempts this))) as [Hmax|_];
      [subst n; lia|].
    eexists. cbn [reconnectTimer reconnectAttempts state].
    split; [reflexivity|]. split; [reflexivity|]. split; [reflexivity|].
    fold n. unfold cappedDelay. fold capped.
    split; [reflexivity|].
    destruct (jitter_bounds random Hlo Hhi) as [Hj1 Hj2].
    split; [exact Hj1|]. split; [exact Hj2|].
    intros Hdelay.
    pose proof (cappedDelay_nonneg _ n Hdelay) as Hcap.
    unfold cappedDelay in Hcap. fold capped in Hcap.
    split; nra.
  - intros Hmax. split; [apply scheduleReconnect_exhausted; exact Hmax|].
    intros events.
    destruct (closes_exhausted events this Hmax) as (_ & Ha & Ht & _).
    auto.
Qed.

Lemma scheduleReconnect_backoff_witness :
  let this :=
    {| config := {| autoReconnect := true; reconnectDelay := 1000;
                    maxReconnectAttempts := 10 |};
       state := disconnected;
       reconnectAttempts := 2;
       reconnectTimer := None |} in
  (exists delay,
     reconnectTimer (scheduleReconnect (1 # 2) this) = Some delay /\
     delay == 3000) /\
  scheduleReconnect (1 # 2)
    {| config := config this; state := disconnected;
       reconnectAttempts := 10; reconnectTimer := None |}
  = {| config := config this; state := disconnected;
       reconnectAttempts := 10; reconnectTimer := None |}.
Proof.
  cbn zeta. split.
  - destruct (proj1 (scheduleReconnect_backoff
                       {| config := {| autoReconnect := true;
                                       reconnectDelay := 1000;
                                       maxReconnectAttempts := 10 |};
                          state := disconnected;
                          reconnectAttempts := 2;
                          reconnectTimer := None |} (1 # 2)
                       ltac:(discriminate) ltac:(reflexivity))
                ltac:(cbn; lia)) as (delay & Htimer & _ & _ & Heq & _).
    exists delay. split; [exact Htimer|].
    rewrite Heq. vm_compute. reflexivity.
  - apply (proj2 (scheduleReconnect_backoff
                    {| config := {| autoReconnect := true;
                                    reconnectDelay := 1000;
                                    maxReconnectAttempts := 10 |};
                       state := disconnected;
                       reconnectAttempts := 10;
                       reconnectTimer := None |} (1 # 2)
                    ltac:(discriminate) ltac:(reflexivity))).
    cbn. lia.
Defined.

End Reconnect.

(** ** Patches *)

Section PatcherFacts.
Context `{JsHost}.
Variable compare : JsValue -> JsValue -> list Operation.
Variable applyPatch : JsValue -> list Operation -> Settled JsValue.

(** The two functions of [patcher.ts] hand the operations of the package
    through unchanged, as long as no operation carries [undefined] as its
    value (no JSON document holds [undefined]): applying the generated
    patches is applying what [compare] returned. *)
Lemma applyPatches_generatePatches a b :
  Forall (fun op => Operation.value op <> Some JUndefined) (compare a b) ->
  applyPatches applyPatch a (generatePatches compare a b)
  = applyPatch a (compare a b).
Proof.
  intros Hdefined. unfold applyPatches, generatePatches.
  rewrite map_map. f_equal.
  induction Hdefined as [|op ops Hop _ IH]; [reflexivity|].
  cbn [map]. rewrite IH. f_equal.
  destruct op as [op path [value|] from]; cbn in *; [|reflexivity].
  destruct value; try reflexivity. congruence.
Qed.

End PatcherFacts.

(** ** The index finds the records a filter matches *)

Section IndexSoundness.
Context `{JsHost}.












End IndexSoundness.

Section IndexSoundnessExamples.
#[local] Existing Instance integerHost.




End IndexSoundnessExamples.

Section SubscriptionIsFound.
Context `{JsHost}.


End SubscriptionIsFound.

Section SubscriptionIsFoundExamples.
#[local] Existing Instance integerHost.


End SubscriptionIsFoundExamples.

(** ** Dependency keys, read back *)

Lemma split_length_count sep s :
  length (split sep s) = S (countChar sep s).
Proof.
  induction s as [|c s IH]; cbn; [reflexivity|].
  destruct (Ascii.eqb c sep); cbn; [rewrite IH; reflexivity|].
  destruct (split sep s) as [|h t]; cbn in *; [discriminate|exact IH].
Qed.

Lemma join_cons sep p q rest :
  join sep (p :: q :: rest) = p +:+ sep +:+ join sep (q :: rest).
Proof. reflexivity. Qed.

(** [parseDependencyKey] gives [null] exactly for the keys with fewer than
    two ['#']; what it gives otherwise has no index name, a table name and
    a field name without ['#'], and is encoded by the key it came from. *)
Theorem parseDependencyKey_sound key :
  (parseDependencyKey key = None <-> (countChar hash key < 2)%nat) /\
  (forall dependency,
     parseDependencyKey key = Some dependency ->
     createDependencyKey dependency = key /\
     QueryDependency.indexName dependency = None /\
     occurs hash (QueryDependency.tableName dependency) = false /\
     occurs hash (QueryDependency.fieldName dependency) = false).
Proof.
  unfold parseDependencyKey.
  pose proof (split_length_count hash key) as Hlen.
  pose proof (join_split hash key) as Hjoin.
  destruct (Nat.ltb_spec (length (split hash key)) 3) as [Hlt|Hge].
  - split; [split; [intros _; lia|reflexivity]|].
    intros dependency Hsome. discriminate Hsome.
  - split; [split; [intros Hnone; discriminate Hnone|intros Hc; lia]|].
    intros dependency Hsome. injection Hsome as <-.
    destruct (split hash key) as [|p0 [|p1 [|p2 rest]]] eqn:Hsplit;
      cbn in Hge; try lia.
    cbn [nth skipn QueryDependency.tableName QueryDependency.fieldName
         QueryDependency.fieldValue QueryDependency.indexName].
    split.
    + unfold createDependencyKey.
      cbn [QueryDependency.tableName QueryDependency.fieldName
           QueryDependency.fieldValue].
      rewrite <- Hjoin. reflexivity.
    + split; [reflexivity|]. split.
      * exact (split_head_no_sep _ _ _ _ Hsplit).
      * clear Hjoin Hlen Hge. revert p0 Hsplit.
        induction key as [|c key IH]; intros p0 Hsplit;
          [discriminate Hsplit|].
        cbn [split] in Hsplit. destruct (Ascii.eqb c hash).
        -- injection Hsplit as _ Hrest.
           exact (split_head_no_sep _ _ _ _ Hrest).
        -- destruct (split hash key) as [|h t] eqn:Hk;
             [discriminate Hsplit|].
           injection Hsplit as _ Ht. subst t.
           exact (IH h eq_refl).
Qed.

Lemma parseDependencyKey_sound_witness :
  createDependencyKey (QueryDependency.mk "Todo" "title" "a#b" None)
  = "Todo#title#a#b".
Proof.
  apply (proj2 (parseDependencyKey_sound "Todo#title#a#b")
           (QueryDependency.mk "Todo" "title" "a#b" None)).
  reflexivity.
Defined.

(** Two dependencies whose table and field names hold no ['#'] have the
    same key only if they agree on table, field and value. *)
Theorem createDependencyKey_injective d1 d2 :
  occurs hash (QueryDependency.tableName d1) = false ->
  occurs hash (QueryDependency.fieldName d1) = false ->
  occurs hash (QueryDependency.tableName d2) = false ->
  occurs hash (QueryDependency.fieldName d2) = false ->
  createDependencyKey d1 = createDependencyKey d2 ->
  QueryDependency.tableName d1 = QueryDependency.tableName d2 /\
  QueryDependency.fieldName d1 = QueryDependency.fieldName d2 /\
  QueryDependency.fieldValue d1 = QueryDependency.fieldValue d2.
Proof.
  intros Ht1 Hf1 Ht2 Hf2 Hkey.
  pose proof (parse_create_parts d1 Ht1 Hf1) as H1.
  pose proof (parse_create_parts d2 Ht2 Hf2) as H2.
  rewrite Hkey, H2 in H1. injection H1 as -> -> ->. auto.
Qed.

Lemma createDependencyKey_injective_witness :
  QueryDependency.tableName (QueryDependency.mk "Todo" "f" "a#b" None)
  = QueryDependency.tableName (QueryDependency.mk "Todo" "f" "a#b" (Some "i"))
  /\ "f" = "f" /\ "a#b" = "a#b".
Proof.
  apply (createDependencyKey_injective
           (QueryDependency.mk "Todo" "f" "a#b" None)
           (QueryDependency.mk "Todo" "f" "a#b" (Some "i")));
    reflexivity.
Defined.

(** ** Stored filters *)

Section StoredFilters.
Context `{JsHost}.

Lemma mapOperator_idempotent operatorMap operator :
  Forall (fun kv =>
            list_find (fun kv' => String.eqb (fst kv') (snd kv)) operatorMap
            = None) operatorMap ->
  mapOperator operatorMap (mapOperator operatorMap operator)
  = mapOperator operatorMap operator.
Proof.
  intros Himages. unfold mapOperator.
  destruct (list_find
              (fun kv => String.eqb (fst kv) (default "" operator))
              operatorMap) as [[i kv]|] eqn:Hfind.
  - change (default "" (Some (snd kv))) with (snd kv).
    apply list_find_Some in Hfind as (Hlookup & _ & _).
    rewrite Forall_forall in Himages.
    rewrite (Himages kv); [reflexivity|].
    eapply list_elem_of_lookup_2. exact Hlookup.
  - rewrite Hfind. reflexivity.
Qed.

Lemma comparisonOperatorMap_images operator :
  mapOperator comparisonOperatorMap
    (mapOperator comparisonOperatorMap operator)
  = mapOperator comparisonOperatorMap operator.
Proof. apply mapOperator_idempotent. repeat constructor. Qed.

Lemma functionOperatorMap_images operator :
  mapOperator functionOperatorMap (mapOperator functionOperatorMap operator)
  = mapOperator functionOperatorMap operator.
Proof. apply mapOperator_idempotent. repeat constructor. Qed.

Lemma logicalOperatorMap_images operator :
  mapOperator logicalOperatorMap (mapOperator logicalOperatorMap operator)
  = mapOperator logicalOperatorMap operator.
Proof. apply mapOperator_idempotent. repeat constructor. Qed.

Lemma map_ext_Forall {A B} (f g : A -> B) l :
  Forall (fun x => f x = g x) l -> map f l = map g l.
Proof.
  induction 1 as [|x l Hx _ IH]; cbn; [reflexivity|].
  rewrite Hx, IH. reflexivity.
Qed.

(** Normalizing stored metadata again changes nothing: the names the
    evaluator expects are not renamed a second time, at any depth of the
    tree. *)
Theorem normalizeFilter_idempotent filter :
  normalizeFilter (normalizeFilter filter) = normalizeFilter filter.
Proof.
  induction filter as
    [type operator field value value2
    |type operator field value value2 conditions IH]
    using FilterCondition_tree_ind.
  - cbn [normalizeFilter FilterCondition.type FilterCondition.operator
         FilterCondition.conditions].
    destruct (String.eqb type "comparison") eqn:Hc.
    + cbn [normalizeFilter withOperator FilterCondition.type
           FilterCondition.operator FilterCondition.field
           FilterCondition.value FilterCondition.value2
           FilterCondition.conditions].
      rewrite Hc. unfold withOperator.
      cbn [FilterCondition.type FilterCondition.operator
           FilterCondition.field FilterCondition.value
           FilterCondition.value2 FilterCondition.conditions].
      rewrite comparisonOperatorMap_images. reflexivity.
    + destruct (String.eqb type "function") eqn:Hf.
      * cbn [normalizeFilter withOperator FilterCondition.type
             FilterCondition.operator FilterCondition.field
             FilterCondition.value FilterCondition.value2
             FilterCondition.conditions].
        rewrite Hc, Hf. unfold withOperator.
        cbn [FilterCondition.type FilterCondition.operator
             FilterCondition.field FilterCondition.value
             FilterCondition.value2 FilterCondition.conditions].
        rewrite functionOperatorMap_images. reflexivity.
      * destruct (String.eqb type "logical") eqn:Hl;
          cbn [normalizeFilter FilterCondition.type
               FilterCondition.conditions];
          rewrite Hc, Hf, Hl; reflexivity.
  - cbn [normalizeFilter FilterCondition.type FilterCondition.operator
         FilterCondition.conditions].
    destruct (String.eqb type "comparison") eqn:Hc.
    + cbn [normalizeFilter withOperator FilterCondition.type
           FilterCondition.operator FilterCondition.field
           FilterCondition.value FilterCondition.value2
           FilterCondition.conditions].
      rewrite Hc. unfold withOperator.
      cbn [FilterCondition.type FilterCondition.operator
           FilterCondition.field FilterCondition.value
           FilterCondition.value2 FilterCondition.conditions].
      rewrite comparisonOperatorMap_images. reflexivity.
    + destruct (String.eqb type "function") eqn:Hf.
      * cbn [normalizeFilter withOperator FilterCondition.type
             FilterCondition.operator FilterCondition.field
             FilterCondition.value FilterCondition.value2
             FilterCondition.conditions].
        rewrite Hc, Hf. unfold withOperator.
        cbn [FilterCondition.type FilterCondition.operator
             FilterCondition.field FilterCondition.value
             FilterCondition.value2 FilterCondition.conditions].
        rewrite functionOperatorMap_images. reflexivity.
      * destruct (String.eqb type "logical") eqn:Hl.
        -- cbn [normalizeFilter FilterCondition.type
                FilterCondition.operator FilterCondition.field
                FilterCondition.value FilterCondition.value2
                FilterCondition.conditions].
           rewrite Hc, Hf, Hl, logicalOperatorMap_images, map_map.
           rewrite (map_ext_Forall _ _ _ IH). reflexivity.
        -- cbn [normalizeFilter FilterCondition.type
                FilterCondition.conditions].
           rewrite Hc, Hf, Hl. reflexivity.
Qed.





End StoredFilters.

(** ** Optimized patches *)

Section OptimizedPatches.
Context `{JsHost}.

Lemma seenPath_In seen path : seenPath seen path = true <-> In path seen.
Proof.
  unfold seenPath. rewrite existsb_exists. split.
  - intros (p & Hin & Heq). apply String.eqb_eq in Heq. congruence.
  - intros Hin. exists path. split; [exact Hin|apply String.eqb_refl].
Qed.

(** [seen] holds the paths of [optimized], in the same order. *)
Lemma optimize_seen_paths patches :
  fst (fold_right optimizeStep ([], []) patches)
  = map JsonPatch.path (snd (fold_right optimizeStep ([], []) patches)).
Proof.
  induction patches as [|patch patches IH]; cbn [fold_right];
    [reflexivity|].
  unfold optimizeStep at 1 3.
  destruct (seenPath _ _); [exact IH|]. cbn. rewrite IH. reflexivity.
Qed.

Lemma optimize_paths patches path :
  In path (map JsonPatch.path (optimizePatches patches)) <->
  In path (map JsonPatch.path patches).
Proof.
  unfold optimizePatches.
  induction patches as [|patch patches IH]; cbn [fold_right];
    [reflexivity|].
  unfold optimizeStep at 1.
  destruct (seenPath _ _) eqn:Hseen.
  - rewrite IH. cbn. split; [auto|].
    intros [<-|Hin]; [|exact Hin].
    apply seenPath_In in Hseen. rewrite optimize_seen_paths in Hseen.
    apply IH. exact Hseen.
  - cbn. rewrite IH. reflexivity.
Qed.

(** One step, from the front of the list. *)
Lemma optimizePatches_cons patch patches :
  optimizePatches (patch :: patches) =
  if seenPath (map JsonPatch.path patches) (JsonPatch.path patch)
  then optimizePatches patches
  else patch :: optimizePatches patches.
Proof.
  assert (Hsame : seenPath (map JsonPatch.path (optimizePatches patches))
                    (JsonPatch.path patch)
                  = seenPath (map JsonPatch.path patches)
                      (JsonPatch.path patch)).
  { apply eq_true_iff_eq. rewrite !seenPath_In. apply optimize_paths. }
  rewrite <- Hsame. clear Hsame.
  unfold optimizePatches. cbn [fold_right]. unfold optimizeStep at 1.
  rewrite optimize_seen_paths.
  destruct (seenPath
              (map JsonPatch.path
                 (snd (fold_right optimizeStep ([], []) patches)))
              (JsonPatch.path patch)); reflexivity.
Qed.

Lemma optimizePatches_NoDup patches :
  NoDup (map JsonPatch.path (optimizePatches patches)).
Proof.
  induction patches as [|patch patches IH]; [constructor|].
  rewrite optimizePatches_cons.
  destruct (seenPath _ _) eqn:Hseen; [exact IH|].
  cbn. apply NoDup_cons_2; [|exact IH].
  rewrite list_elem_of_In, optimize_paths, <- seenPath_In.
  rewrite Hseen. discriminate.
Qed.

Lemma optimizePatches_sublist patches :
  sublist (optimizePatches patches) patches.
Proof.
  induction patches as [|patch patches IH]; [constructor|].
  rewrite optimizePatches_cons.
  destruct (seenPath _ _); [apply sublist_cons|apply sublist_skip]; exact IH.
Qed.

(** The optimized list is a subsequence of the patches with one patch for
    each path that occurs: no path twice, no path lost, order kept. *)
Theorem optimizePatches_one_per_path patches :
  NoDup (map JsonPatch.path (optimizePatches patches)) /\
  (forall path,
     In path (map JsonPatch.path (optimizePatches patches)) <->
     In path (map JsonPatch.path patches)) /\
  sublist (optimizePatches patches) patches.
Proof.
  split; [apply optimizePatches_NoDup|].
  split; [apply optimize_paths|apply optimizePatches_sublist].
Qed.


Lemma optimizePatches_distinct patches :
  NoDup (map JsonPatch.path patches) -> optimizePatches patches = patches.
Proof.
  induction patches as [|patch patches IH]; [reflexivity|].
  cbn [map]. intros Hnodup. apply NoDup_cons in Hnodup as [Hfresh Hnodup].
  rewrite optimizePatches_cons.
  destruct (seenPath _ _) eqn:Hseen.
  - exfalso. apply Hfresh. apply list_elem_of_In, seenPath_In. exact Hseen.
  - rewrite (IH Hnodup). reflexivity.
Qed.

(** Optimizing a second time changes nothing. *)
Theorem optimizePatches_idempotent patches :
  optimizePatches (optimizePatches patches) = optimizePatches patches.
Proof. apply optimizePatches_distinct, optimizePatches_NoDup. Qed.

End OptimizedPatches.

(** ** What the handlers do to the tables *)

Section HandlerEffects.
Context `{JsHost}.
Variable execute :
  string -> JsValue -> JsValue ->
  list TrackedQueryOperation * Settled JsValue.
Variable getContext : string -> Settled JsValue.
Variable ttlSeconds : Z.
Variable faults : nat -> option Thrown.

(** The loop that writes the index entries, however it ends. *)
Lemma forEach_putDependency_any connectionId subscriptionId now keys :
  forall w r w',
    forEach keys
      (fun key =>
         putDependency faults
           (dependencyEntryOf ttlSeconds key connectionId subscriptionId now))
      w = (r, w') ->
    queries (store w') = queries (store w) /\
    forall k,
      dependencies (store w') !! k = dependencies (store w) !! k \/
      exists key,
        In key keys /\
        k = (key, connectionId +:+ "#" +:+ subscriptionId) /\
        dependencies (store w') !! k
        = Some (dependencyEntryOf ttlSeconds key connectionId subscriptionId
                  now).
Proof.
  induction keys as [|key0 rest IH]; intros w r w' Hrun.
  - injection Hrun as <- <-. auto.
  - cbn [forEach] in Hrun. unfold bind, putDependency, send in Hrun.
    destruct (faults (sent w)) as [e|].
    + injection Hrun as <- <-. auto.
    + apply IH in Hrun as (Hq & Hdeps).
      cbn [store queries dependencies DependencyEntry.pk DependencyEntry.sk
           dependencyEntryOf] in Hq, Hdeps.
      split; [exact Hq|]. intros k.
      destruct (Hdeps k) as [Hsame|(key & Hin & -> & Hentry)].
      * destruct (decide
                    ((key0, connectionId +:+ "#" +:+ subscriptionId) = k))
          as [<-|Hne].
        -- right. exists key0. split; [left; reflexivity|].
           split; [reflexivity|]. rewrite Hsame. apply lookup_insert_eq.
        -- left. rewrite Hsame. apply lookup_insert_ne. exact Hne.
      * right. exists key. split; [right; exact Hin|]. auto.
Qed.

(** A subscribe, however it ends: the row of the subscription is written
    or not, and an index entry is either as before or one of those of the
    subscription. *)
Lemma handleSubscribe_any connectionId subscriptionId path input ctx now w
    r w' :
  handleSubscribe execute ttlSeconds faults connectionId subscriptionId path
    input ctx now w = (r, w') ->
  (queries (store w') = queries (store w) \/
   exists entry,
     QueryEntry.pk entry = connectionId /\
     QueryEntry.sk entry = subscriptionId /\
     QueryEntry.connectionId entry = connectionId /\
     QueryEntry.subscriptionId entry = subscriptionId /\
     queries (store w') =
       <[(connectionId, subscriptionId) := entry]> (queries (store w))) /\
  forall k,
    dependencies (store w') !! k = dependencies (store w) !! k \/
    exists key,
      k = (key, connectionId +:+ "#" +:+ subscriptionId) /\
      dependencies (store w') !! k
      = Some (dependencyEntryOf ttlSeconds key connectionId subscriptionId
                now).
Proof.
  unfold handleSubscribe.
  destruct (execute path ctx input) as [operations [result|e]].
  - unfold bind at 1, putQuery at 1, send at 1.
    destruct (faults (sent w)) as [e|].
    + intros Hrun. injection Hrun as <- <-. auto.
    + unfold bind at 1.
      match goal with
      | |- context [forEach ?keys ?body ?w1] =>
          pose proof (forEach_putDependency_any connectionId subscriptionId
                        now keys w1) as Hloop;
          destruct (forEach keys body w1) as [[[]|e] w2] eqn:Hrun
      end;
        specialize (Hloop _ _ eq_refl);
        cbn [store queries dependencies queryEntryOf QueryEntry.pk
             QueryEntry.sk] in Hloop;
        destruct Hloop as (Hq & Hdeps);
        intros Heq; injection Heq as <- <-;
        (split;
         [right;
          match type of Hq with
          | _ = <[_ := ?e]> _ => exists e
          end;
          split; [reflexivity|]; split; [reflexivity|];
          split; [reflexivity|]; split; [reflexivity|exact Hq]
         |intros k; destruct (Hdeps k) as [Hsame|(key & _ & -> & Hentry)];
          [left; exact Hsame|right; exists key; auto]]).
  - intros Hrun. injection Hrun as <- <-. auto.
Qed.

(** The loop that deletes the index entries, however it ends. *)
Lemma forEach_deleteDependency sk keys :
  forall w r w',
    forEach keys (fun key => deleteDependency faults key sk) w = (r, w') ->
    queries (store w') = queries (store w) /\
    (forall k,
       dependencies (store w') !! k = dependencies (store w) !! k \/
       (dependencies (store w') !! k = None /\
        exists key, In key keys /\ k = (key, sk))) /\
    (r = Fulfilled tt ->
     forall key, In key keys -> dependencies (store w') !! (key, sk) = None).
Proof.
  induction keys as [|key0 rest IH]; intros w r w' Hrun.
  - injection Hrun as <- <-.
    split; [reflexivity|]. split; [auto|intros _ key []].
  - cbn [forEach] in Hrun. unfold bind, deleteDependency, send in Hrun.
    destruct (faults (sent w)) as [e|].
    + injection Hrun as <- <-.
      split; [reflexivity|]. split; [auto|intros Hr; discriminate Hr].
    + apply IH in Hrun as (Hq & Hdeps & Hall).
      cbn [store queries dependencies] in Hq, Hdeps.
      split; [exact Hq|].
      assert (Hgone : forall k,
                dependencies (store w') !! k = None \/
                (k <> (key0, sk) /\
                 dependencies (store w') !! k
                 = dependencies (store w) !! k)).
      { intros k. destruct (Hdeps k) as [Hsame|[Hnone _]]; [|auto].
        destruct (decide ((key0, sk) = k)) as [<-|Hne].
        - left. rewrite Hsame. apply lookup_delete_eq.
        - right. split; [congruence|].
          rewrite Hsame. apply lookup_delete_ne. exact Hne. }
      split.
      * intros k. destruct (Hdeps k) as [Hsame|[Hnone (key & Hin & ->)]].
        -- destruct (decide ((key0, sk) = k)) as [<-|Hne].
           ++ right. split; [rewrite Hsame; apply lookup_delete_eq|].
              exists key0. split; [left|]; reflexivity.
           ++ left. rewrite Hsame. apply lookup_delete_ne. exact Hne.
        -- right. split; [exact Hnone|]. exists key.
           split; [right; exact Hin|reflexivity].
      * intros Hr key [<-|Hin]; [|exact (Hall Hr key Hin)].
        destruct (Hgone (key0, sk)) as [Hnone|[Hne _]];
          [exact Hnone|congruence].
Qed.

(** An unsubscribe, however it ends. *)
Lemma handleUnsubscribe_any connectionId subscriptionId w r w' :
  handleUnsubscribe faults connectionId subscriptionId w = (r, w') ->
  (queries (store w') = queries (store w) \/
   (r = Fulfilled (ResultResponse (JObj [("success", JBool true)])) /\
    queries (store w') =
      delete (connectionId, subscriptionId) (queries (store w)))) /\
  (forall k,
     dependencies (store w') !! k = dependencies (store w) !! k \/
     (dependencies (store w') !! k = None /\
      exists entry key,
        queries (store w) !! (connectionId, subscriptionId) = Some entry /\
        In key (QueryEntry.dependencies entry) /\
        k = (key, connectionId +:+ "#" +:+ subscriptionId))) /\
  (forall response,
     r = Fulfilled response ->
     response = ResultResponse (JObj [("success", JBool true)]) /\
     queries (store w') =
       delete (connectionId, subscriptionId) (queries (store w)) /\
     forall entry key,
       queries (store w) !! (connectionId, subscriptionId) = Some entry ->
       In key (QueryEntry.dependencies entry) ->
       dependencies (store w')
         !! (key, connectionId +:+ "#" +:+ subscriptionId) = None).
Proof.
  unfold handleUnsubscribe.
  unfold bind at 1, getQuery at 1, send at 1.
  destruct (faults (sent w)) as [e|].
  { intros Hrun. injection Hrun as <- <-.
    split; [auto|]. split; [auto|]. intros response Hr. discriminate Hr. }
  cbn [store].
  set (w1 := {| store := store w; sent := S (sent w) |}).
  unfold bind at 1.
  destruct (queries (store w) !! (connectionId, subscriptionId))
    as [entry|] eqn:Hrow.
  - pose proof (forEach_deleteDependency
                  (connectionId +:+ "#" +:+ subscriptionId)
                  (QueryEntry.dependencies entry) w1) as Hloop.
    destruct (forEach (QueryEntry.dependencies entry) _ w1)
      as [[[]|e] w2] eqn:Hrun;
      specialize (Hloop _ _ eq_refl) as (Hq & Hdeps & Hall);
      cbn [store w1] in Hq, Hdeps.
    + unfold bind at 1, deleteQuery at 1, send at 1.
      destruct (faults (sent w2)) as [e|];
        intros Heq; injection Heq as <- <-;
        cbn [store queries dependencies].
      * split; [left; exact Hq|]. split.
        -- intros k. destruct (Hdeps k) as [Hsame|[Hnone (key & Hin & ->)]];
             [left; exact Hsame|right].
           split; [exact Hnone|]. exists entry, key. auto.
        -- intros response Hr. discriminate Hr.
      * split; [right; split; [reflexivity|rewrite Hq; reflexivity]|].
        split.
        -- intros k. destruct (Hdeps k) as [Hsame|[Hnone (key & Hin & ->)]];
             [left; exact Hsame|right].
           split; [exact Hnone|]. exists entry, key. auto.
        -- intros response Hr. injection Hr as <-.
           split; [reflexivity|]. split; [rewrite Hq; reflexivity|].
           intros entry' key Hentry Hin. injection Hentry as <-.
           exact (Hall eq_refl key Hin).
    + intros Heq. injection Heq as <- <-.
      split; [left; exact Hq|]. split.
      * intros k. destruct (Hdeps k) as [Hsame|[Hnone (key & Hin & ->)]];
          [left; exact Hsame|right].
        split; [exact Hnone|]. exists entry, key. auto.
      * intros response Hr. discriminate Hr.
  - unfold ret at 1.
    unfold bind at 1, deleteQuery at 1, send at 1. cbn [sent w1].
    destruct (faults (S (sent w))) as [e|];
      intros Heq; injection Heq as <- <-;
      cbn [store queries dependencies w1].
    + split; [auto|]. split; [auto|]. intros response Hr. discriminate Hr.
    + split; [auto|]. split; [auto|].
      intros response Hr. injection Hr as <-.
      split; [reflexivity|]. split; [reflexivity|].
      intros entry key Hentry. discriminate Hentry.
Qed.

End HandlerEffects.

Section StreamEffects.
Context `{JsHost}.
Variable compare : JsValue -> JsValue -> list Operation.
Variable executeStatement : QueryMetadata -> Settled (option (list JsValue)).
Variable postToConnection : string -> string -> list JsonPatch -> PostOutcome.
Variable faults : nat -> option Thrown.

(** One processed subscription, however its commands end: the promise is
    fulfilled, the index is as before, and the queries table is as before
    or holds the row of the subscription with the new result. *)
Lemma processSubscription_any connectionId subscriptionId now w r w' :
  processSubscription compare executeStatement postToConnection faults
    connectionId subscriptionId now w = (r, w') ->
  r = Fulfilled tt /\
  dependencies (store w') = dependencies (store w) /\
  (queries (store w') = queries (store w) \/
   exists entry,
     queries (store w) !! (connectionId, subscriptionId) = Some entry /\
     hasChanges compare (QueryEntry.lastResult entry)
       (JArr (executeQueryFromMetadata executeStatement
                (QueryEntry.queryMetadata entry))) = true /\
     queries (store w') =
       <[(QueryEntry.pk entry, QueryEntry.sk entry) :=
           updatedEntry entry
             (executeQueryFromMetadata executeStatement
                (QueryEntry.queryMetadata entry)) now]>
         (queries (store w))).
Proof.
  unfold processSubscription, updateQueryState, getQueryState, sendPatch,
    cleanupConnection, tryCatch, bind, getQuery, putQuery, send, ret, throw.
  cbn [store sent queries dependencies].
  intros Hrun.
  repeat (first
    [ match type of Hrun with
      | context [faults ?n] => destruct (faults n)
      end
    | rewrite Hrow in Hrun
    | match type of Hrun with
      | context [queries (store w) !! ?k] =>
          destruct (queries (store w) !! k) as [entry|] eqn:Hrow
      end
    | match type of Hrun with
      | context [negb ?b] => destruct b eqn:Hchanged
      end
    | match type of Hrun with
      | context [postToConnection ?c ?s ?p] =>
          destruct (postToConnection c s p)
      end ];
    cbn [store sent queries dependencies negb] in Hrun);
  injection Hrun as <- <-; cbn [store queries dependencies];
  (split; [reflexivity|]); (split; [reflexivity|]);
  first [left; reflexivity | right; exists entry; auto].
Qed.

End StreamEffects.

Section LambdaStreamEffects.
Context `{JsHost}.
Variable compare : JsValue -> JsValue -> list Operation.
Variable executeStatement : QueryMetadata -> Settled (option (list JsValue)).
Variable postToConnection : string -> string -> list JsonPatch -> PostOutcome.
Variable faults : nat -> option Thrown.

Lemma lambda_processSubscription_any connectionId subscriptionId now w r w' :
  LambdaHandlers.processSubscription compare executeStatement
    postToConnection faults connectionId subscriptionId now w = (r, w') ->
  r = Fulfilled tt /\
  dependencies (store w') = dependencies (store w) /\
  (queries (store w') = queries (store w) \/
   exists entry,
     queries (store w) !! (connectionId, subscriptionId) = Some entry /\
     hasChanges compare (QueryEntry.lastResult entry)
       (JArr (executeQueryFromMetadata executeStatement
                (QueryEntry.queryMetadata entry))) = true /\
     queries (store w') =
       <[(QueryEntry.pk entry, QueryEntry.sk entry) :=
           updatedEntry entry
             (executeQueryFromMetadata executeStatement
                (QueryEntry.queryMetadata entry)) now]>
         (queries (store w))).
Proof.
  unfold LambdaHandlers.processSubscription,
    LambdaHandlers.cleanupConnection, sendPatch,
    tryCatch, bind, getQuery, putQuery, send, ret, throw.
  cbn [store sent queries dependencies].
  intros Hrun.
  repeat (first
    [ match type of Hrun with
      | context [faults ?n] => destruct (faults n)
      end
    | rewrite Hrow in Hrun
    | match type of Hrun with
      | context [queries (store w) !! ?k] =>
          destruct (queries (store w) !! k) as [entry|] eqn:Hrow
      end
    | match type of Hrun with
      | context [negb ?b] => destruct b eqn:Hchanged
      end
    | match type of Hrun with
      | context [postToConnection ?c ?s ?p] =>
          destruct (postToConnection c s p)
      end
    | match type of Hrun with
      | context [match ?e with ThrownGone _ => _ | _ => _ end] =>
          is_var e; destruct e
      end ];
    cbn [store sent queries dependencies negb] in Hrun);
  injection Hrun as <- <-; cbn [store queries dependencies];
  (split; [reflexivity|]); (split; [reflexivity|]);
  first [left; reflexivity | right; exists entry; auto].
Qed.

End LambdaStreamEffects.

Section HandlerTheorems.
Context `{JsHost}.

Lemma store_eq (st st' : Store) :
  queries st' = queries st -> dependencies st' = dependencies st -> st' = st.
Proof. destruct st, st'. cbn. intros -> ->. reflexivity. Qed.

(** An unsubscribe that succeeds answers [{ success: true }], removes the
    row of the subscription and every index entry listed on it, and leaves
    the other rows alone. *)
Theorem handleUnsubscribe_removes faults connectionId subscriptionId w
    response w' :
  handleUnsubscribe faults connectionId subscriptionId w
    = (Fulfilled response, w') ->
  response = ResultResponse (JObj [("success", JBool true)]) /\
  queries (store w') !! (connectionId, subscriptionId) = None /\
  (forall entry key,
     queries (store w) !! (connectionId, subscriptionId) = Some entry ->
     In key (QueryEntry.dependencies entry) ->
     dependencies (store w')
       !! (key, connectionId +:+ "#" +:+ subscriptionId) = None) /\
  (forall k, k <> (connectionId, subscriptionId) ->
             queries (store w') !! k = queries (store w) !! k).
Proof.
  intros Hrun. apply handleUnsubscribe_any in Hrun as (_ & _ & Hdone).
  destruct (Hdone response eq_refl) as (-> & Hq & Hindex).
  split; [reflexivity|]. rewrite Hq.
  split; [apply lookup_delete_eq|]. split; [exact Hindex|].
  intros k Hk. apply lookup_delete_ne. congruence.
Qed.

(** Unsubscribing from a subscription that has no row changes neither
    table, whether the commands succeed or not. *)
Theorem handleUnsubscribe_absent faults connectionId subscriptionId w r w' :
  queries (store w) !! (connectionId, subscriptionId) = None ->
  handleUnsubscribe faults connectionId subscriptionId w = (r, w') ->
  store w' = store w.
Proof.
  intros Habsent Hrun.
  apply handleUnsubscribe_any in Hrun as (Hq & Hdeps & _).
  apply store_eq.
  - destruct Hq as [Hq|[_ Hq]]; [exact Hq|].
    rewrite Hq. apply delete_id. exact Habsent.
  - apply map_eq. intros k.
    destruct (Hdeps k) as [Hsame|[_ (entry & key & Hentry & _)]];
      [exact Hsame|congruence].
Qed.

(** A subscribe never removes an index entry, however it ends: the entries
    an earlier subscribe wrote under the same subscription stay when the
    row is replaced. *)
Theorem handleSubscribe_keeps_index execute ttlSeconds faults connectionId
    subscriptionId path input ctx now w r w' k :
  handleSubscribe execute ttlSeconds faults connectionId subscriptionId path
    input ctx now w = (r, w') ->
  is_Some (dependencies (store w) !! k) ->
  is_Some (dependencies (store w') !! k).
Proof.
  intros Hrun Hk. apply handleSubscribe_any in Hrun as (_ & Hdeps).
  destruct (Hdeps k) as [->|(key & _ & ->)]; [exact Hk|eauto].
Qed.

(** A subscribe followed by an unsubscribe, both successful, leaves the
    tables as they were, when the subscription had no row and no index
    entry before. *)
Theorem subscribe_then_unsubscribe execute ttlSeconds faults faults'
    connectionId subscriptionId path input ctx now w response w1 response'
    w2 :
  queries (store w) !! (connectionId, subscriptionId) = None ->
  (forall key,
     dependencies (store w)
       !! (key, connectionId +:+ "#" +:+ subscriptionId) = None) ->
  handleSubscribe execute ttlSeconds faults connectionId subscriptionId path
    input ctx now w = (Fulfilled response, w1) ->
  handleUnsubscribe faults' connectionId subscriptionId w1
    = (Fulfilled response', w2) ->
  store w2 = store w.
Proof.
  intros Hrow Hindex Hsub Hunsub.
  apply handleSubscribe_fulfilled in Hsub
    as (operations & result & _ & _ & Hq1 & _ & Hother).
  apply handleUnsubscribe_any in Hunsub as (_ & Hdeps & Hdone).
  destruct (Hdone response' eq_refl) as (_ & Hq2 & Hgone).
  apply store_eq.
  - rewrite Hq2, Hq1. apply delete_insert_id. exact Hrow.
  - apply map_eq. intros [key sk].
    assert (Hentry : queries (store w1) !! (connectionId, subscriptionId)
                     = Some (queryEntryOf ttlSeconds connectionId
                               subscriptionId
                               (Some (queryMetadataOf operations))
                               (dependencyKeysOf operations) result now))
      by (rewrite Hq1; apply lookup_insert_eq).
    destruct (String.string_dec sk
                (connectionId +:+ "#" +:+ subscriptionId)) as [->|Hsk].
    + rewrite Hindex.
      destruct (Hdeps (key, connectionId +:+ "#" +:+ subscriptionId))
        as [Hsame|[Hnone _]]; [|exact Hnone].
      rewrite Hsame.
      destruct (in_dec String.string_dec key (dependencyKeysOf operations))
        as [Hin|Hnotin].
      * rewrite <- Hsame. apply (Hgone _ key Hentry). exact Hin.
      * rewrite Hother; [apply Hindex|].
        intros key' Hin Heq. injection Heq as ->. exact (Hnotin Hin).
    + destruct (Hdeps (key, sk))
        as [Hsame|[_ (entry & key' & _ & _ & Heq)]]; [|congruence].
      rewrite Hsame. apply Hother. intros key' _ Heq. congruence.
Qed.

(** A request touches only its own subscription, however it ends: rows
    under other keys and index entries under another
    [connectionId#subscriptionId] are as before, and a request without a
    subscription (a call) changes nothing at all. *)
Theorem handleRequest_frame execute getContext ttlSeconds faults
    connectionId request now w r w' :
  handleRequest execute getContext ttlSeconds faults connectionId request
    now w = (r, w') ->
  (forall k,
     (forall s, subscriptionIdOf request = Some s ->
                k <> (connectionId, s)) ->
     queries (store w') !! k = queries (store w) !! k) /\
  (forall k,
     (forall s, subscriptionIdOf request = Some s ->
                snd k <> connectionId +:+ "#" +:+ s) ->
     dependencies (store w') !! k = dependencies (store w) !! k) /\
  (subscriptionIdOf request = None -> store w' = store w).
Proof.
  unfold handleRequest.
  destruct (getContext connectionId) as [ctx|e].
  2: { intros Hrun. injection Hrun as <- <-. auto. }
  destruct request as [subscriptionId path input|subscriptionId
                      |path input|type subscriptionId];
    cbn [subscriptionIdOf]; intros Hrun.
  - apply handleSubscribe_any in Hrun as (Hq & Hdeps).
    split; [|split; [|intros Hnone; discriminate Hnone]].
    + intros k Hk. specialize (Hk _ eq_refl).
      destruct Hq as [->|(entry & _ & _ & _ & _ & ->)]; [reflexivity|].
      apply lookup_insert_ne. congruence.
    + intros k Hk. specialize (Hk _ eq_refl).
      destruct (Hdeps k) as [Hsame|(key & -> & _)]; [exact Hsame|].
      exfalso. apply Hk. reflexivity.
  - apply handleUnsubscribe_any in Hrun as (Hq & Hdeps & _).
    split; [|split; [|intros Hnone; discriminate Hnone]].
    + intros k Hk. specialize (Hk _ eq_refl).
      destruct Hq as [->|[_ ->]]; [reflexivity|].
      apply lookup_delete_ne. congruence.
    + intros k Hk. specialize (Hk _ eq_refl).
      destruct (Hdeps k) as [Hsame|[_ (entry & key & _ & _ & ->)]];
        [exact Hsame|].
      exfalso. apply Hk. reflexivity.
  - unfold handleCall in Hrun.
    destruct (snd (execute path ctx input)); injection Hrun as <- <-; auto.
  - injection Hrun as <- <-. auto.
Qed.

(** What a processed subscription does to tables whose rows sit under
    their own keys: the promise is fulfilled whatever fails, the index and
    the other rows are as before, and the row of the subscription is as
    before or differs in [lastResult] and [updatedAt] alone. *)
Theorem processSubscription_updates_row compare executeStatement
    postToConnection faults connectionId subscriptionId now w r w' :
  consistentKeys (store w) ->
  processSubscription compare executeStatement postToConnection faults
    connectionId subscriptionId now w = (r, w') ->
  r = Fulfilled tt /\
  dependencies (store w') = dependencies (store w) /\
  (forall k, k <> (connectionId, subscriptionId) ->
             queries (store w') !! k = queries (store w) !! k) /\
  (queries (store w') !! (connectionId, subscriptionId)
   = queries (store w) !! (connectionId, subscriptionId) \/
   exists entry,
     queries (store w) !! (connectionId, subscriptionId) = Some entry /\
     queries (store w') !! (connectionId, subscriptionId)
     = Some (updatedEntry entry
               (executeQueryFromMetadata executeStatement
                  (QueryEntry.queryMetadata entry)) now)).
Proof.
  intros [Hconsistent _] Hrun.
  apply processSubscription_any in Hrun as (-> & Hdeps & Hq).
  split; [reflexivity|]. split; [exact Hdeps|].
  destruct Hq as [->|(entry & Hentry & _ & ->)]; [auto|].
  destruct (Hconsistent _ _ Hentry) as (Hkey & _).
  rewrite <- Hkey. split.
  - intros k Hk. apply lookup_insert_ne. congruence.
  - right. exists entry. split; [exact Hentry|apply lookup_insert_eq].
Qed.

(** Nothing is written for a subscription that has no row, nor when the
    fresh result shows no difference from [lastResult]. *)
Theorem processSubscription_no_write compare executeStatement
    postToConnection faults connectionId subscriptionId now w r w' :
  (queries (store w) !! (connectionId, subscriptionId) = None \/
   exists entry,
     queries (store w) !! (connectionId, subscriptionId) = Some entry /\
     compare (QueryEntry.lastResult entry)
       (JArr (executeQueryFromMetadata executeStatement
                (QueryEntry.queryMetadata entry))) = []) ->
  processSubscription compare executeStatement postToConnection faults
    connectionId subscriptionId now w = (r, w') ->
  store w' = store w.
Proof.
  intros Hcase Hrun.
  apply processSubscription_any in Hrun as (_ & Hdeps & Hq).
  apply store_eq; [|exact Hdeps].
  destruct Hq as [Hq|(entry & Hentry & Hchanged & _)]; [exact Hq|].
  exfalso. destruct Hcase as [Hnone|(entry' & Hentry' & Hsame)];
    [congruence|].
  rewrite Hentry in Hentry'. injection Hentry' as <-.
  unfold hasChanges, generatePatches in Hchanged.
  rewrite Hsame in Hchanged. discriminate Hchanged.
Qed.

Lemma transition_consistent st st' :
  transition st st' -> consistentKeys st -> consistentKeys st'.
Proof.
  assert (Hrow : forall (q : gmap (string * string) QueryEntry) entry,
            (forall key e, q !! key = Some e -> consistentQueryEntry key e) ->
            QueryEntry.connectionId entry = QueryEntry.pk entry ->
            QueryEntry.subscriptionId entry = QueryEntry.sk entry ->
            forall key e,
              <[(QueryEntry.pk entry, QueryEntry.sk entry) := entry]> q
                !! key = Some e ->
              consistentQueryEntry key e).
  { intros q entry Hq Hc Hs key e. rewrite lookup_insert.
    destruct (decide _) as [<-|_]; [|apply Hq].
    intros Heq. injection Heq as <-. repeat split; assumption. }
  assert (Hstream : forall st0 st1 connectionId subscriptionId,
            consistentKeys st0 ->
            dependencies st1 = dependencies st0 ->
            (queries st1 = queries st0 \/
             exists entry newResult now,
               queries st0 !! (connectionId, subscriptionId) = Some entry /\
               queries st1 =
                 <[(QueryEntry.pk entry, QueryEntry.sk entry) :=
                     updatedEntry entry newResult now]> (queries st0)) ->
            consistentKeys st1).
  { intros st0 st1 connectionId subscriptionId [Hq0 Hd0] Hdeps Hq.
    split; [|rewrite Hdeps; exact Hd0].
    destruct Hq as [->|(entry & newResult & now & Hentry & ->)];
      [exact Hq0|].
    destruct (Hq0 _ _ Hentry) as (_ & Hc & Hs).
    apply (Hrow _ (updatedEntry entry newResult now)); assumption. }
  intros [execute getContext ttlSeconds faults connectionId request now w
         |compare executeStatement postToConnection faults connectionId
            subscriptionId now w
         |compare executeStatement postToConnection faults connectionId
            subscriptionId now w] Hst.
  - destruct (handleRequest execute getContext ttlSeconds faults
                connectionId request now w) as [r w'] eqn:Hrun.
    cbn [snd]. unfold handleRequest in Hrun.
    destruct (getContext connectionId) as [ctx|e];
      [|injection Hrun as <- <-; exact Hst].
    destruct Hst as [Hq0 Hd0].
    destruct request as [subscriptionId path input|subscriptionId
                        |path input|type subscriptionId].
    + apply handleSubscribe_any in Hrun as (Hq & Hdeps). split.
      * destruct Hq as [->|(entry & Hpk & Hsk & Hc & Hs & ->)];
          [exact Hq0|].
        replace (connectionId, subscriptionId)
          with (QueryEntry.pk entry, QueryEntry.sk entry) by congruence.
        apply Hrow; [exact Hq0|congruence|congruence].
      * intros k entry Hentry.
        destruct (Hdeps k) as [Hsame|(key & -> & Hnew)].
        -- apply Hd0. rewrite <- Hsame. exact Hentry.
        -- rewrite Hnew in Hentry. injection Hentry as <-.
           split; reflexivity.
    + apply handleUnsubscribe_any in Hrun as (Hq & Hdeps & _). split.
      * destruct Hq as [->|[_ ->]]; [exact Hq0|].
        intros k entry Hentry.
        apply lookup_delete_Some in Hentry as [_ Hentry]. eauto.
      * intros k entry Hentry.
        destruct (Hdeps k) as [Hsame|[Hnone _]]; [|congruence].
        apply Hd0. rewrite <- Hsame. exact Hentry.
    + unfold handleCall in Hrun.
      destruct (snd (execute path ctx input)); injection Hrun as <- <-;
        split; assumption.
    + injection Hrun as <- <-. split; assumption.
  - destruct (processSubscription compare executeStatement postToConnection
                faults connectionId subscriptionId now w) as [r w'] eqn:Hrun.
    apply processSubscription_any in Hrun as (_ & Hdeps & Hq).
    apply (Hstream (store w) _ connectionId subscriptionId Hst Hdeps).
    destruct Hq as [Hq|(entry & Hentry & _ & Hq)]; [left; exact Hq|].
    right. eauto.
  - destruct (LambdaHandlers.processSubscription compare executeStatement
                postToConnection faults connectionId subscriptionId now w)
      as [r w'] eqn:Hrun.
    apply lambda_processSubscription_any in Hrun as (_ & Hdeps & Hq).
    apply (Hstream (store w) _ connectionId subscriptionId Hst Hdeps).
    destruct Hq as [Hq|(entry & Hentry & _ & Hq)]; [left; exact Hq|].
    right. eauto.
Qed.

Lemma consistentKeys_empty : consistentKeys emptyStore.
Proof.
  split; intros key entry Hentry; cbn in Hentry;
    rewrite lookup_empty in Hentry; discriminate Hentry.
Qed.

(** In every store reached from the empty tables, each subscription row
    sits under its own connection and subscription ids, and each index
    entry under its dependency key and the [connectionId#subscriptionId]
    of the ids it carries - the ids the stream handler reads from an index
    entry lead to the row of that subscription. *)
Theorem reachable_consistentKeys st : reachable st -> consistentKeys st.
Proof.
  induction 1 as [|st st' _ IH Hstep].
  - exact consistentKeys_empty.
  - exact (transition_consistent _ _ Hstep IH).
Qed.

End HandlerTheorems.

Section HandlerExamples.
#[local] Existing Instance integerHost.

Lemma subscribedWorld_consistent : consistentKeys (store subscribedWorld).
Proof.
  apply (transition_consistent (store freshWorld));
    [apply transition_request|exact consistentKeys_empty].
Qed.

Lemma handleUnsubscribe_removes_witness :
  queries
    (store (snd (handleUnsubscribe noFaults "c1" "s1" subscribedWorld)))
    !! ("c1", "s1") = None /\
  dependencies
    (store (snd (handleUnsubscribe noFaults "c1" "s1" subscribedWorld)))
    !! ("Todo#listId#L1", "c1#s1") = None.
Proof.
  destruct (handleUnsubscribe_removes (H := integerHost) noFaults "c1" "s1"
              subscribedWorld
              (ResultResponse (JObj [("success", JBool true)]))
              (snd (handleUnsubscribe noFaults "c1" "s1" subscribedWorld))
              ltac:(vm_compute; reflexivity))
    as (_ & Hrow & Hindex & _).
  split; [exact Hrow|].
  apply (Hindex
           (queryEntryOf 3600 "c1" "s1" (Some (queryMetadataOf twoQueries))
              (dependencyKeysOf twoQueries) countResult 5000)
           "Todo#listId#L1").
  - vm_compute. reflexivity.
  - left. reflexivity.
Defined.

Lemma handleUnsubscribe_absent_witness :
  store (snd (handleUnsubscribe noFaults "c1" "s1" freshWorld))
  = store freshWorld.
Proof.
  apply (handleUnsubscribe_absent (H := integerHost) noFaults "c1" "s1"
           freshWorld
           (fst (handleUnsubscribe noFaults "c1" "s1" freshWorld))).
  - vm_compute. reflexivity.
  - vm_compute. reflexivity.
Defined.

Lemma handleSubscribe_keeps_index_witness :
  is_Some
    (dependencies
       (store (snd (handleSubscribe noQueryRouter 3600 noFaults "c1" "s1"
                      "todos.count" JNull (JObj []) 6000 subscribedWorld)))
       !! ("Todo#listId#L1", "c1#s1")).
Proof.
  apply (handleSubscribe_keeps_index (H := integerHost) noQueryRouter
           3600%Z noFaults "c1" "s1" "todos.count" (@JNull integerHost)
           (@JObj integerHost []) 6000%Z subscribedWorld
           (fst (handleSubscribe noQueryRouter 3600 noFaults "c1" "s1"
                   "todos.count" JNull (JObj []) 6000 subscribedWorld))).
  - vm_compute. reflexivity.
  - vm_compute. eexists. reflexivity.
Defined.

Lemma subscribe_then_unsubscribe_witness :
  store (snd (handleUnsubscribe noFaults "c1" "s1" subscribedWorld))
  = store freshWorld.
Proof.
  apply (subscribe_then_unsubscribe (H := integerHost) twoQueriesRouter
           3600%Z noFaults noFaults "c1" "s1" "todos.list"
           (@JNull integerHost) (@JObj integerHost []) 5000%Z freshWorld
           countSnapshot subscribedWorld
           (ResultResponse (JObj [("success", JBool true)]))).
  - vm_compute. reflexivity.
  - intros key. apply lookup_empty.
  - vm_compute. reflexivity.
  - vm_compute. reflexivity.
Defined.

Lemma handleRequest_frame_witness :
  store (snd (handleRequest twoQueriesRouter anyContext 3600 noFaults "c2"
                (CallRequest "todos.count" JNull) 6000 subscribedWorld))
  = store subscribedWorld /\
  queries
    (store (snd (handleRequest twoQueriesRouter anyContext 3600 noFaults
                   "c2" (SubscribeRequest "s1" "todos.list" JNull) 6000
                   subscribedWorld)))
    !! ("c1", "s1")
  = queries (store subscribedWorld) !! ("c1", "s1").
Proof.
  split.
  - apply (handleRequest_frame (H := integerHost) twoQueriesRouter anyContext
             3600%Z noFaults "c2" (CallRequest "todos.count" JNull) 6000%Z
             subscribedWorld
             (fst (handleRequest twoQueriesRouter anyContext 3600 noFaults
                     "c2" (CallRequest "todos.count" JNull) 6000
                     subscribedWorld)));
      [vm_compute; reflexivity|reflexivity].
  - apply (handleRequest_frame (H := integerHost) twoQueriesRouter anyContext
             3600%Z noFaults "c2" (SubscribeRequest "s1" "todos.list" JNull)
             6000%Z subscribedWorld
             (fst (handleRequest twoQueriesRouter anyContext 3600 noFaults
                     "c2" (SubscribeRequest "s1" "todos.list" JNull) 6000
                     subscribedWorld)));
      [vm_compute; reflexivity|].
    intros s Hs. injection Hs as <-. intros Heq. discriminate Heq.
Defined.

Lemma processSubscription_updates_row_witness :
  dependencies
    (store (snd (processSubscription replaceWhole noItems alwaysPosted
                   noFaults "c1" "s1" 7000 subscribedWorld)))
  = dependencies (store subscribedWorld).
Proof.
  apply (processSubscription_updates_row (H := integerHost) replaceWhole
           noItems alwaysPosted noFaults "c1" "s1" 7000%Z subscribedWorld
           (fst (processSubscription replaceWhole noItems alwaysPosted
                   noFaults "c1" "s1" 7000 subscribedWorld))).
  - exact subscribedWorld_consistent.
  - vm_compute. reflexivity.
Defined.

Lemma processSubscription_no_write_witness :
  store (snd (processSubscription sameDocument noItems alwaysPosted noFaults
                "c1" "s1" 7000 subscribedWorld))
  = store subscribedWorld.
Proof.
  apply (processSubscription_no_write (H := integerHost) sameDocument
           noItems alwaysPosted noFaults "c1" "s1" 7000%Z subscribedWorld
           (fst (processSubscription sameDocument noItems alwaysPosted
                   noFaults "c1" "s1" 7000 subscribedWorld))).
  - right.
    exists (queryEntryOf 3600 "c1" "s1" (Some (queryMetadataOf twoQueries))
              (dependencyKeysOf twoQueries) countResult 5000).
    split; [vm_compute; reflexivity|reflexivity].
  - vm_compute. reflexivity.
Defined.

Lemma reachable_consistentKeys_witness :
  consistentKeys (store subscribedWorld).
Proof.
  apply reachable_consistentKeys.
  apply (reachable_step (store freshWorld)); [apply reachable_empty|].
  apply transition_request.
Defined.

End HandlerExamples.

(** ** Runs of closes *)

Section ReconnectRuns.
Import WebSocketManager.
Local Open Scope Q_scope.

Lemma onClose_config wasClean random this :
  config (onClose wasClean random this) = config this.
Proof.
  unfold onClose, scheduleReconnect. cbn [config reconnectAttempts].
  destruct (_ && _); [|reflexivity].
  destruct (_ <=? _)%Z; reflexivity.
Qed.

Lemma onClose_attempts wasClean random this :
  reconnectAttempts (onClose wasClean random this) =
    if autoReconnect (config this) && negb wasClean
    then if (maxReconnectAttempts (config this)
             <=? Z.of_nat (reconnectAttempts this))%Z
         then reconnectAttempts this
         else S (reconnectAttempts this)
    else reconnectAttempts this.
Proof.
  unfold onClose, scheduleReconnect. cbn [config reconnectAttempts].
  destruct (_ && _); [|reflexivity].
  destruct (_ <=? _)%Z; reflexivity.
Qed.

Lemma cappedDelay_bounds reconnectDelay attempts :
  0 <= reconnectDelay -> (1 <= attempts)%nat ->
  Qmin reconnectDelay 30000 <= cappedDelay reconnectDelay attempts /\
  cappedDelay reconnectDelay attempts <= 30000.
Proof.
  intros Hdelay Hattempts. unfold cappedDelay.
  split; [|apply Q.le_min_r].
  apply Q.min_glb; [|apply Q.le_min_r].
  eapply Qle_trans; [apply Q.le_min_l|].
  pose proof (Qpower_1_le 2 (Z.of_nat attempts - 1) ltac:(discriminate)
                ltac:(lia)) as Hpower.
  revert Hpower. generalize (2 ^ (Z.of_nat attempts - 1)). intros p Hp.
  nra.
Qed.

(** The delay before jitter grows from one attempt to the next until it
    reaches 30 000 ms, where it stays: it never shrinks and never exceeds
    the cap, and from the attempt at which the doubled base delay passes
    the cap it is the cap. *)
Theorem cappedDelay_grows_to_cap reconnectDelay attempts :
  0 <= reconnectDelay ->
  cappedDelay reconnectDelay attempts
    <= cappedDelay reconnectDelay (S attempts) /\
  cappedDelay reconnectDelay (S attempts) <= 30000 /\
  (30000 <= reconnectDelay * 2 ^ (Z.of_nat attempts - 1) ->
   cappedDelay reconnectDelay attempts == 30000 /\
   cappedDelay reconnectDelay (S attempts) == 30000).
Proof.
  intros Hdelay. unfold cappedDelay.
  assert (Hgrow : reconnectDelay * 2 ^ (Z.of_nat attempts - 1)
                  <= reconnectDelay * 2 ^ (Z.of_nat (S attempts) - 1)).
  { pose proof (Qpower_le_compat_l 2 (Z.of_nat attempts - 1)
                  (Z.of_nat (S attempts) - 1) ltac:(lia)
                  ltac:(discriminate)) as Hpower.
    pose proof (Qpower_0_le 2 (Z.of_nat attempts - 1) ltac:(discriminate))
      as Hpos.
    revert Hpower Hpos.
    generalize (2 ^ (Z.of_nat attempts - 1)),
               (2 ^ (Z.of_nat (S attempts) - 1)).
    intros p q Hpq Hp. nra. }
  split; [apply Q.min_le_compat_r; exact Hgrow|].
  split; [apply Q.le_min_r|].
  intros Hcap. split.
  - apply Q.min_r. exact Hcap.
  - apply Q.min_r. eapply Qle_trans; [exact Hcap|exact Hgrow].
Qed.

Lemma cappedDelay_grows_to_cap_witness :
  cappedDelay 1000 5 <= cappedDelay 1000 6 /\
  cappedDelay 1000 6 <= 30000 /\
  (30000 <= 1000 * 2 ^ (Z.of_nat 5 - 1) ->
   cappedDelay 1000 5 == 30000 /\ cappedDelay 1000 6 == 30000).
Proof.
  apply (cappedDelay_grows_to_cap 1000 5). discriminate.
Defined.

Lemma closes_config events : forall this,
  config (closes events this) = config this.
Proof.
  unfold closes. induction events as [|event events IH]; intros this;
    [reflexivity|].
  cbn [fold_left]. rewrite IH. apply onClose_config.
Qed.

(** The number of reconnect attempts after a run of closes, when
    reconnecting is on: each close that was not clean counts one, up to
    [maxReconnectAttempts]; a clean close counts nothing. *)
Theorem closes_counts_unclean events this :
  autoReconnect (config this) = true ->
  reconnectAttempts (closes events this) =
    Nat.max (reconnectAttempts this)
      (Nat.min
         (reconnectAttempts this
          + length (List.filter (fun event => negb (fst event)) events))
         (Z.to_nat (maxReconnectAttempts (config this)))).
Proof.
  unfold closes. revert this.
  induction events as [|[wasClean random] events IH]; intros this Hauto.
  - cbn. lia.
  - cbn [fold_left fst snd List.filter].
    rewrite IH by (rewrite onClose_config; exact Hauto).
    rewrite onClose_config, onClose_attempts, Hauto.
    destruct wasClean; cbn [negb andb length]; [reflexivity|].
    destruct (Z.leb_spec (maxReconnectAttempts (config this))
                (Z.of_nat (reconnectAttempts this))); lia.
Qed.

Lemma closes_counts_unclean_witness :
  reconnectAttempts
    (closes [(false, 0); (true, 0); (false, 1 # 2); (false, 0); (false, 0)]
       {| config := {| autoReconnect := true; reconnectDelay := 1000;
                       maxReconnectAttempts := 3 |};
          state := connected; reconnectAttempts := 0;
          reconnectTimer := None |})
  = 3%nat.
Proof.
  apply (closes_counts_unclean
           [(false, 0); (true, 0); (false, 1 # 2); (false, 0); (false, 0)]
           {| config := {| autoReconnect := true; reconnectDelay := 1000;
                           maxReconnectAttempts := 3 |};
              state := connected; reconnectAttempts := 0;
              reconnectTimer := None |}).
  reflexivity.
Defined.

(** Whatever run of closes: a pending timer is the one that was pending
    before, or its delay lies between half of the smaller of the base
    delay and 30 000 ms, and 30 000 ms. *)
Theorem closes_timer_bounds events this delay :
  0 <= reconnectDelay (config this) ->
  Forall (fun event => 0 <= snd event /\ snd event < 1) events ->
  reconnectTimer (closes events this) = Some delay ->
  reconnectTimer this = Some delay \/
  (Qmin (reconnectDelay (config this)) 30000 * (1 # 2) <= delay /\
   delay <= 30000).
Proof.
  unfold closes. intros Hdelay Hevents. revert this Hdelay.
  induction Hevents as [|[wasClean random] events [Hlo Hhi] _ IH];
    intros this Hdelay Htimer.
  - left. exact Htimer.
  - cbn [fold_left fst snd] in Htimer.
    apply IH in Htimer; [|rewrite onClose_config; exact Hdelay].
    rewrite onClose_config in Htimer.
    destruct Htimer as [Htimer|Hbounds]; [|right; exact Hbounds].
    unfold onClose, scheduleReconnect in Htimer.
    cbn [config reconnectAttempts reconnectTimer] in Htimer.
    destruct (_ && _); [|left; exact Htimer].
    destruct (_ <=? _)%Z; [left; exact Htimer|].
    cbn [reconnectTimer] in Htimer. injection Htimer as <-.
    right.
    destruct (cappedDelay_bounds (reconnectDelay (config this))
                (S (reconnectAttempts this)) Hdelay ltac:(lia))
      as [Hmin Hmax].
    destruct (jitter_bounds random Hlo Hhi) as [Hj1 Hj2].
    pose proof (cappedDelay_nonneg (reconnectDelay (config this))
                  (S (reconnectAttempts this)) Hdelay) as Hpos.
    revert Hmin Hmax Hpos Hj1 Hj2.
    generalize (cappedDelay (reconnectDelay (config this))
                  (S (reconnectAttempts this))),
               (jitter random),
               (Qmin (reconnectDelay (config this)) 30000).
    intros c j m Hmin Hmax Hpos Hj1 Hj2. split; nra.
Qed.

Lemma closes_timer_bounds_witness :
  reconnectTimer
    {| config := {| autoReconnect := true; reconnectDelay := 1000;
                    maxReconnectAttempts := 3 |};
       state := connected; reconnectAttempts := 0;
       reconnectTimer := None |} = Some (2000 * ((1 # 2) + 0 * (1 # 2))) \/
  (Qmin 1000 30000 * (1 # 2) <= 2000 * ((1 # 2) + 0 * (1 # 2)) /\
   2000 * ((1 # 2) + 0 * (1 # 2)) <= 30000).
Proof.
  apply (closes_timer_bounds [(false, 1 # 2); (false, 0)]
           {| config := {| autoReconnect := true; reconnectDelay := 1000;
                           maxReconnectAttempts := 3 |};
              state := connected; reconnectAttempts := 0;
              reconnectTimer := None |}).
  - discriminate.
  - repeat constructor; cbn; try discriminate; reflexivity.
  - vm_compute. reflexivity.
Defined.

End ReconnectRuns.

(** ** The outbound queue *)

Section QueueFacts.
Import OutboundQueue.
Variable ClientMessage : Type.

Lemma sends_connected (messages : list ClientMessage) : forall this,
  isConnected (state this) && socketOpen this = true ->
  fold_left (fun manager message => send message manager) messages this =
    {| state := state this; socketOpen := socketOpen this;
       messageQueue := messageQueue this;
       transmitted := transmitted this ++ messages |}.
Proof.
  induction messages as [|message messages IH]; intros this Hopen.
  - cbn. rewrite app_nil_r. destruct this; reflexivity.
  - cbn [fold_left]. rewrite IH; unfold send; rewrite Hopen; cbn.
    + rewrite <- app_assoc. reflexivity.
    + exact Hopen.
Qed.

Lemma sends_queued (messages : list ClientMessage) : forall this,
  isConnected (state this) && socketOpen this = false ->
  fold_left (fun manager message => send message manager) messages this =
    {| state := state this; socketOpen := socketOpen this;
       messageQueue := messageQueue this ++ messages;
       transmitted := transmitted this |}.
Proof.
  induction messages as [|message messages IH]; intros this Hclosed.
  - cbn. rewrite app_nil_r. destruct this; reflexivity.
  - cbn [fold_left]. rewrite IH; unfold send; rewrite Hclosed; cbn.
    + rewrite <- app_assoc. reflexivity.
    + exact Hclosed.
Qed.

(** Flushing hands the queued messages to the socket in the order they
    were queued, after what was sent before, and empties the queue - when
    the manager is connected and the socket open; otherwise it changes
    nothing.  Either way no message is lost, repeated or reordered. *)
Theorem flushMessageQueue_delivers (this : t ClientMessage) :
  (isConnected (state this) && socketOpen this = true ->
   messageQueue (flushMessageQueue this) = [] /\
   transmitted (flushMessageQueue this)
   = transmitted this ++ messageQueue this) /\
  (isConnected (state this) && socketOpen this = false ->
   flushMessageQueue this = this) /\
  transmitted (flushMessageQueue this) ++ messageQueue (flushMessageQueue this)
  = transmitted this ++ messageQueue this.
Proof.
  unfold flushMessageQueue.
  destruct (isConnected (state this) && socketOpen this) eqn:Hopen.
  - rewrite sends_connected by exact Hopen. cbn.
    repeat split; try discriminate. apply app_nil_r.
  - rewrite sends_queued by exact Hopen. cbn.
    split; [discriminate|]. split; [|reflexivity].
    intros _. destruct this; reflexivity.
Qed.

(** Messages sent while the socket was not open and flushed once it is
    open reach the socket in the order of the calls of [send]. *)
Theorem queued_then_flushed (messages : list ClientMessage)
    (this : t ClientMessage) :
  isConnected (state this) && socketOpen this = false ->
  let queued :=
    fold_left (fun manager message => send message manager) messages this in
  let opened :=
    {| state := WebSocketManager.connected; socketOpen := true;
       messageQueue := messageQueue queued;
       transmitted := transmitted queued |} in
  transmitted (flushMessageQueue opened)
  = transmitted this ++ messageQueue this ++ messages /\
  messageQueue (flushMessageQueue opened) = [].
Proof.
  intros Hclosed queued opened. subst queued opened.
  rewrite sends_queued by exact Hclosed.
  unfold flushMessageQueue. rewrite sends_connected by reflexivity.
  cbn. split; reflexivity.
Qed.

End QueueFacts.

Lemma queued_then_flushed_witness :
  OutboundQueue.transmitted
    (OutboundQueue.flushMessageQueue
       {| OutboundQueue.state := WebSocketManager.connected;
          OutboundQueue.socketOpen := true;
          OutboundQueue.messageQueue := ["a"; "b"; "c"];
          OutboundQueue.transmitted := [] |})
  = ["a"; "b"; "c"].
Proof.
  apply (queued_then_flushed string ["b"; "c"]
           {| OutboundQueue.state := WebSocketManager.connecting;
              OutboundQueue.socketOpen := false;
              OutboundQueue.messageQueue := ["a"];
              OutboundQueue.transmitted := [] |}).
  reflexivity.
Defined.

(** ** Routers *)

Section RouterFacts.
Context `{JsHost}.
Import Router.

Lemma RouterEntry_tree_ind (P : RouterEntry -> Prop) :
  (forall procedure, P (Proc procedure)) ->
  (forall entries,
     Forall (fun kv => P (snd kv)) entries -> P (Sub entries)) ->
  forall obj, P obj.
Proof.
  intros Hproc Hsub. fix IH 1. intros [procedure|entries].
  - apply Hproc.
  - apply Hsub. induction entries as [|[key value] rest IHrest]; constructor.
    + apply IH.
    + exact IHrest.
Qed.

Lemma property_cons key value rest part :
  property ((key, value) :: rest) part =
    if String.eqb key part then Some value else property rest part.
Proof.
  unfold property. cbn [list_find fst].
  destruct (String.eqb key part) eqn:Hkey.
  - destruct (decide _) as [_|Hno]; [reflexivity|].
    exfalso. apply Hno. exact I.
  - destruct (decide _) as [Hyes|_].
    + exfalso. exact Hyes.
    + destruct (list_find _ rest) as [[i kv]|]; reflexivity.
Qed.

Lemma property_In entries part value :
  property entries part = Some value -> In (part, value) entries.
Proof.
  induction entries as [|[key v] rest IH]; [intros Hnone; discriminate Hnone|].
  rewrite property_cons.
  destruct (String.eqb_spec key part) as [->|_].
  - intros Heq. injection Heq as <-. left. reflexivity.
  - intros Hrest. right. exact (IH Hrest).
Qed.

Lemma property_absent entries part :
  existsb (String.eqb part) (map fst entries) = false ->
  property entries part = None.
Proof.
  induction entries as [|[key v] rest IH]; [reflexivity|].
  cbn [map fst existsb]. intros Hno.
  apply orb_false_iff in Hno as [Hkey Hrest].
  rewrite property_cons.
  destruct (String.eqb_spec key part) as [->|_]; [|exact (IH Hrest)].
  rewrite String.eqb_refl in Hkey. discriminate Hkey.
Qed.

Lemma In_property entries part value :
  distinct (map fst entries) = true ->
  In (part, value) entries -> property entries part = Some value.
Proof.
  induction entries as [|[key v] rest IH]; [intros _ []|].
  cbn [map fst distinct]. intros Hdistinct Hin.
  apply andb_true_iff in Hdistinct as [Hfresh Hrest].
  apply negb_true_iff in Hfresh.
  rewrite property_cons. destruct Hin as [Heq|Hin].
  - injection Heq as -> ->. rewrite String.eqb_refl. reflexivity.
  - destruct (String.eqb_spec key part) as [->|_]; [|exact (IH Hrest Hin)].
    exfalso. apply property_absent in Hfresh.
    rewrite (IH Hrest Hin) in Hfresh. discriminate Hfresh.
Qed.

Lemma joinPath_empty key : joinPath "" key = key.
Proof. reflexivity. Qed.

Lemma append_assoc (a b c : string) : (a +:+ b) +:+ c = a +:+ (b +:+ c).
Proof.
  induction a as [|x a IH]; [reflexivity|].
  change (String x ((a +:+ b) +:+ c) = String x (a +:+ b +:+ c)).
  f_equal. exact IH.
Qed.

Lemma joinPath_joinPath prefix key rest :
  key <> "" ->
  joinPath (joinPath prefix key) rest
  = joinPath prefix (key +:+ "." +:+ rest).
Proof.
  intros Hkey. unfold joinPath.
  destruct (String.eqb_spec prefix "") as [->|Hprefix].
  - destruct (String.eqb_spec key ""); [contradiction|reflexivity].
  - destruct (String.eqb_spec (prefix +:+ "." +:+ key) "") as [Hempty|_].
    + destruct prefix; [contradiction|discriminate Hempty].
    + rewrite !append_assoc. reflexivity.
Qed.

Lemma split_join sep parts :
  parts <> [] ->
  Forall (fun part => occurs sep part = false) parts ->
  split sep (join (String sep EmptyString) parts) = parts.
Proof.
  intros Hne Hparts. induction Hparts as [|p rest Hp Hrest IH];
    [contradiction|].
  destruct rest as [|q rest]; [apply split_no_sep; exact Hp|].
  rewrite join_cons.
  change (String sep "" +:+ join (String sep "") (q :: rest))
    with (String sep (join (String sep "") (q :: rest))).
  rewrite split_app_sep by exact Hp. rewrite IH by discriminate.
  reflexivity.
Qed.

Lemma plainKeys_entry entries key value :
  plainKeys (Sub entries) = true -> In (key, value) entries ->
  key <> "" /\ occurs dot key = false /\ plainKeys value = true.
Proof.
  cbn [plainKeys]. intros Hplain Hin.
  apply andb_true_iff in Hplain as [_ Hall].
  rewrite forallb_forall in Hall. specialize (Hall _ Hin). cbn beta iota in Hall.
  apply andb_true_iff in Hall as [Hkeys Hvalue].
  apply andb_true_iff in Hkeys as [Hne Hdot].
  apply negb_true_iff in Hne, Hdot.
  split; [intros ->; discriminate Hne|]. split; [exact Hdot|].
  destruct value; [reflexivity|exact Hvalue].
Qed.

Lemma traverse_entry entries prefix key value path :
  In (key, value) entries ->
  In path
     match value with
     | Proc _ => [joinPath prefix key]
     | Sub _ => traverse value (joinPath prefix key)
     end ->
  In path (traverse (Sub entries) prefix).
Proof.
  intros Hin Hpath. cbn [traverse]. apply in_flat_map.
  exists (key, value). split; [exact Hin|exact Hpath].
Qed.

Lemma traverse_listed parts : forall obj prefix procedure,
  plainKeys obj = true ->
  walk obj parts = Some procedure ->
  parts <> [] ->
  In (joinPath prefix (join "." parts)) (traverse obj prefix).
Proof.
  induction parts as [|part rest IH]; intros obj prefix procedure Hplain Hwalk
    Hne; [contradiction|].
  destruct obj as [p|entries]; [discriminate Hwalk|].
  cbn [walk] in Hwalk.
  destruct (property entries part) as [next|] eqn:Hnext;
    [|discriminate Hwalk].
  apply property_In in Hnext.
  destruct (plainKeys_entry _ _ _ Hplain Hnext) as (Hkey & _ & Hinner).
  apply (traverse_entry _ _ part next); [exact Hnext|].
  destruct rest as [|part2 rest].
  - destruct next as [p|inner]; [left; reflexivity|discriminate Hwalk].
  - destruct next as [p|inner]; [discriminate Hwalk|].
    rewrite join_cons, <- joinPath_joinPath by exact Hkey.
    apply (IH (Sub inner) _ procedure Hinner Hwalk). discriminate.
Qed.

Lemma traverse_found obj : forall prefix path,
  plainKeys obj = true ->
  In path (traverse obj prefix) ->
  exists parts procedure,
    parts <> [] /\
    Forall (fun part => occurs dot part = false) parts /\
    path = joinPath prefix (join "." parts) /\
    walk obj parts = Some procedure.
Proof.
  induction obj as [p|entries IH] using RouterEntry_tree_ind;
    intros prefix path Hplain Hin; [destruct Hin|].
  cbn [traverse] in Hin. apply in_flat_map in Hin as ([key value] & Hentry & Hin).
  destruct (plainKeys_entry _ _ _ Hplain Hentry) as (Hkey & Hdot & Hinner).
  pose proof Hplain as Hdistinct. cbn [plainKeys] in Hdistinct.
  apply andb_true_iff in Hdistinct as [Hdistinct _].
  pose proof (In_property _ _ _ Hdistinct Hentry) as Hproperty.
  destruct value as [p|inner].
  - destruct Hin as [<-|[]]. exists [key], p.
    split; [discriminate|]. split; [repeat constructor; exact Hdot|].
    split; [reflexivity|]. cbn [walk]. rewrite Hproperty. reflexivity.
  - rewrite Forall_forall in IH.
    apply list_elem_of_In in Hentry.
    destruct (IH _ Hentry (joinPath prefix key) path Hinner Hin)
      as (parts & procedure & Hne & Hparts & -> & Hwalk).
    exists (key :: parts), procedure.
    split; [discriminate|]. split; [constructor; assumption|].
    split.
    + destruct parts as [|part2 parts]; [contradiction|].
      rewrite join_cons. apply joinPath_joinPath. exact Hkey.
    + cbn [walk]. rewrite Hproperty. exact Hwalk.
Qed.

(** [getProcedurePaths] and [getProcedure] agree on a router whose keys are
    not empty and hold no ['.']: the listed paths are the paths that name a
    procedure, which are the paths that are a query or a mutation. *)
Theorem getProcedurePaths_getProcedure definition path :
  plainKeys (Sub definition) = true ->
  (In path (getProcedurePaths definition)
   <-> exists procedure, getProcedure definition path = Some procedure) /\
  (In path (getProcedurePaths definition)
   <-> xorb (isQuery definition path) (isMutation definition path) = true).
Proof.
  intros Hplain.
  assert (Hiff : In path (getProcedurePaths definition)
                 <-> exists procedure,
                       getProcedure definition path = Some procedure).
  { unfold getProcedurePaths, getProcedure. split.
    - intros Hin.
      apply traverse_found in Hin
        as (parts & procedure & Hne & Hparts & -> & Hwalk); [|exact Hplain].
      exists procedure. rewrite joinPath_empty.
      change "."%string with (String dot EmptyString).
      rewrite split_join by assumption. exact Hwalk.
    - intros [procedure Hwalk].
      rewrite <- (join_split dot path) at 1.
      rewrite <- (joinPath_empty (join _ _)).
      apply (traverse_listed _ _ _ procedure Hplain Hwalk).
      apply split_not_nil. }
  split; [exact Hiff|]. rewrite Hiff. unfold isQuery, isMutation.
  destruct (getProcedure definition path) as [procedure|].
  - split; [intros _|eauto].
    destruct (ProcedureDefinition.type procedure); reflexivity.
  - split; [intros [procedure Hsome]; discriminate Hsome|].
    intros Hfalse; discriminate Hfalse.
Qed.

Lemma property_assignKey target key value part :
  property (assignKey target key value) part =
    if String.eqb key part then Some value else property target part.
Proof.
  induction target as [|[k v] rest IH]; cbn [assignKey].
  - rewrite property_cons. reflexivity.
  - destruct (String.eqb_spec k key) as [->|Hk].
    + rewrite !property_cons. destruct (String.eqb key part); reflexivity.
    + rewrite !property_cons, IH.
      destruct (String.eqb_spec k part) as [->|_]; [|reflexivity].
      destruct (String.eqb_spec key part) as [->|_];
        [contradiction|reflexivity].
Qed.

Lemma property_objectAssign source : forall target part,
  distinct (map fst source) = true ->
  property (objectAssign target source) part =
    match property source part with
    | Some value => Some value
    | None => property target part
    end.
Proof.
  unfold objectAssign.
  induction source as [|[key value] rest IH]; intros target part Hdistinct;
    [reflexivity|].
  cbn [map fst distinct] in Hdistinct.
  apply andb_true_iff in Hdistinct as [Hfresh Hrest].
  apply negb_true_iff in Hfresh.
  cbn [fold_left fst snd]. rewrite IH by exact Hrest.
  rewrite property_cons, property_assignKey.
  destruct (String.eqb_spec key part) as [<-|_]; [|reflexivity].
  rewrite (property_absent _ _ Hfresh). reflexivity.
Qed.

(** [mergeRouters] is shallow: a path whose first key the last router
    defines is resolved in the last router alone - what earlier routers
    hold under that key is replaced, not merged - and every other path is
    resolved as in the merge of the earlier routers. *)
Theorem mergeRouters_last_wins routers last path :
  distinct (map fst last) = true ->
  getProcedure (mergeRouters (routers ++ [last])) path =
    match property last (hd "" (split dot path)) with
    | Some _ => getProcedure last path
    | None => getProcedure (mergeRouters routers) path
    end.
Proof.
  intros Hdistinct. unfold getProcedure, mergeRouters.
  rewrite fold_left_app. cbn [fold_left].
  pose proof (split_not_nil dot path) as Hne.
  destruct (split dot path) as [|part rest]; [contradiction|].
  cbn [hd walk]. rewrite property_objectAssign by exact Hdistinct.
  destruct (property last part); reflexivity.
Qed.

End RouterFacts.

Section RouterExamples.
#[local] Existing Instance integerHost.

Lemma getProcedurePaths_getProcedure_witness :
  In "todos.add" (Router.getProcedurePaths todosRouter)
  <-> exists procedure,
        Router.getProcedure todosRouter "todos.add" = Some procedure.
Proof.
  apply (getProcedurePaths_getProcedure (H := integerHost) todosRouter
           "todos.add").
  reflexivity.
Defined.

Lemma mergeRouters_last_wins_witness :
  Router.getProcedure (Router.mergeRouters [todosRouter; archiveRouter])
    "todos.list" = None.
Proof.
  apply (mergeRouters_last_wins (H := integerHost) [todosRouter]
           archiveRouter "todos.list").
  reflexivity.
Defined.

End RouterExamples.

(** ** Statements and their parameters *)

Section Placeholders.
Context `{JsHost}.

Lemma countChar_append c a b :
  countChar c (a +:+ b) = (countChar c a + countChar c b)%nat.
Proof.
  induction a as [|d a IH]; [reflexivity|].
  change (countChar c (String d (a +:+ b))
          = (countChar c (String d a) + countChar c b)%nat).
  cbn [countChar]. rewrite IH. destruct (Ascii.eqb d c); reflexivity.
Qed.

Lemma countChar_occurs c s : occurs c s = false -> countChar c s = 0%nat.
Proof.
  induction s as [|d s IH]; [reflexivity|]. cbn [occurs countChar].
  intros Hocc. apply orb_false_iff in Hocc as [-> Hs]. exact (IH Hs).
Qed.

Lemma countChar_quoted name :
  occurs questionMark name = false ->
  countChar questionMark (quoted name) = 0%nat.
Proof.
  intros Hname. unfold quoted. rewrite !countChar_append.
  rewrite (countChar_occurs _ _ Hname). reflexivity.
Qed.

Lemma list_sum_nil : list_sum [] = 0%nat.
Proof. reflexivity. Qed.

Lemma list_sum_cons x l : list_sum (x :: l) = (x + list_sum l)%nat.
Proof. reflexivity. Qed.

Lemma countChar_join c sep parts :
  countChar c sep = 0%nat ->
  countChar c (join sep parts) = list_sum (map (countChar c) parts).
Proof.
  intros Hsep. induction parts as [|p rest IH]; [reflexivity|].
  destruct rest as [|q rest]; [cbn [join map]; rewrite list_sum_cons, list_sum_nil; lia|].
  rewrite join_cons, !countChar_append, Hsep, IH. cbn [map]. rewrite ?list_sum_cons. lia.
Qed.

Lemma conditionToPartiQL_logical type operator field value value2
    conditions parameters :
  String.eqb type "comparison" = false ->
  String.eqb type "function" = false ->
  String.eqb type "logical" = true ->
  conditionToPartiQL
    (FilterCondition.mk type operator field value value2 conditions)
    parameters =
  match conditions with
  | None | Some [] =>
      inl "Logical condition requires at least one sub-condition"
  | Some (first :: rest) =>
      if isString_eq operator "NOT" then
        match conditionToPartiQL first parameters with
        | inl message => inl message
        | inr (subClause, parameters') =>
            inr ("NOT (" +:+ subClause +:+ ")", parameters')
        end
      else
        match whereClauses (first :: rest) parameters with
        | inl message => inl message
        | inr (subClauses, parameters') =>
            inr ("(" +:+
                 join (" " +:+ template operator +:+ " ") subClauses +:+
                 ")", parameters')
        end
  end.
Proof.
  intros Hc Hf Hl.
  cbn [conditionToPartiQL FilterCondition.type FilterCondition.operator
       FilterCondition.conditions].
  rewrite Hc, Hf, Hl.
  destruct conditions as [[|first rest]|]; reflexivity.
Qed.

Lemma whereClauses_placeholders filters :
  Forall
    (fun filter =>
       forall parameters clause parameters',
         plainNames filter = true ->
         conditionToPartiQL filter parameters = inr (clause, parameters') ->
         length parameters'
         = (length parameters + countChar questionMark clause)%nat)
    filters ->
  forall parameters clauses parameters',
    forallb plainNames filters = true ->
    whereClauses filters parameters = inr (clauses, parameters') ->
    length parameters'
    = (length parameters
       + list_sum (map (countChar questionMark) clauses))%nat.
Proof.
  induction 1 as [|filter rest Hfilter _ IH];
    intros parameters clauses parameters' Hplain Hrun.
  - injection Hrun as <- <-. cbn [map]. rewrite list_sum_nil. lia.
  - cbn [forallb] in Hplain. apply andb_true_iff in Hplain as [Hp Hrest].
    cbn [whereClauses] in Hrun.
    destruct (conditionToPartiQL filter parameters) as [message|[clause ps1]]
      eqn:Hfirst; [discriminate Hrun|].
    destruct (whereClauses rest ps1) as [message|[others ps2]] eqn:Hothers;
      [discriminate Hrun|].
    injection Hrun as <- <-.
    rewrite (IH _ _ _ Hrest Hothers), (Hfilter _ _ _ Hp Hfirst).
    cbn [map]. rewrite ?list_sum_cons. lia.
Qed.

Lemma conditionToPartiQL_placeholders condition :
  forall parameters clause parameters',
    plainNames condition = true ->
    conditionToPartiQL condition parameters = inr (clause, parameters') ->
    length parameters'
    = (length parameters + countChar questionMark clause)%nat.
Proof.
  assert (Hleaf : forall type operator field value value2 conditions
                    parameters clause parameters',
            String.eqb type "logical" = false
            \/ String.eqb type "comparison" = true
            \/ String.eqb type "function" = true ->
            plainNames
              (FilterCondition.mk type operator field value value2
                 conditions) = true ->
            conditionToPartiQL
              (FilterCondition.mk type operator field value value2
                 conditions) parameters = inr (clause, parameters') ->
            length parameters'
            = (length parameters + countChar questionMark clause)%nat).
  { intros type operator field value value2 conditions parameters clause
      parameters' Hkind Hplain Hrun.
    cbn [plainNames FilterCondition.field FilterCondition.operator] in Hplain.
    apply andb_true_iff in Hplain as [Hnames _].
    apply andb_true_iff in Hnames as [Hfield Hoperator].
    apply negb_true_iff in Hfield, Hoperator.
    pose proof (countChar_quoted _ Hfield) as Hq.
    pose proof (countChar_occurs _ _ Hoperator) as Ho.
    cbn [conditionToPartiQL FilterCondition.type FilterCondition.operator
         FilterCondition.field FilterCondition.value FilterCondition.value2
         FilterCondition.conditions] in Hrun.
    destruct (String.eqb type "comparison").
    - injection Hrun as <- <-.
      rewrite !countChar_append, Hq, Ho, length_app. reflexivity.
    - destruct (String.eqb type "function").
      + destruct (isString_eq operator "BETWEEN");
          [injection Hrun as <- <-;
           rewrite !countChar_append, Hq, length_app; reflexivity|].
        destruct (isString_eq operator "begins_with");
          [injection Hrun as <- <-;
           rewrite !countChar_append, Hq, length_app; reflexivity|].
        destruct (isString_eq operator "contains");
          [injection Hrun as <- <-;
           rewrite !countChar_append, Hq, length_app; reflexivity|].
        discriminate Hrun.
      + destruct Hkind as [Hl|[Hc|Hf]]; try discriminate.
        rewrite Hl in Hrun. discriminate Hrun. }
  induction condition
    as [type operator field value value2
       |type operator field value value2 conditions IH]
    using FilterCondition_tree_ind;
    intros parameters clause parameters' Hplain Hrun.
  - destruct (String.eqb type "comparison") eqn:Hc;
      [apply (Hleaf _ _ _ _ _ _ _ _ _ (or_intror (or_introl Hc)) Hplain Hrun)|].
    destruct (String.eqb type "function") eqn:Hf;
      [apply (Hleaf _ _ _ _ _ _ _ _ _ (or_intror (or_intror Hf)) Hplain Hrun)|].
    destruct (String.eqb type "logical") eqn:Hl;
      [|apply (Hleaf _ _ _ _ _ _ _ _ _ (or_introl Hl) Hplain Hrun)].
    rewrite conditionToPartiQL_logical in Hrun by assumption.
    discriminate Hrun.
  - destruct (String.eqb type "comparison") eqn:Hc;
      [apply (Hleaf _ _ _ _ _ _ _ _ _ (or_intror (or_introl Hc)) Hplain Hrun)|].
    destruct (String.eqb type "function") eqn:Hf;
      [apply (Hleaf _ _ _ _ _ _ _ _ _ (or_intror (or_intror Hf)) Hplain Hrun)|].
    destruct (String.eqb type "logical") eqn:Hl;
      [|apply (Hleaf _ _ _ _ _ _ _ _ _ (or_introl Hl) Hplain Hrun)].
    rewrite conditionToPartiQL_logical in Hrun by assumption.
    cbn [plainNames FilterCondition.field FilterCondition.operator
         FilterCondition.conditions] in Hplain.
    apply andb_true_iff in Hplain as [Hnames Hsubs].
    apply andb_true_iff in Hnames as [_ Hoperator].
    apply negb_true_iff in Hoperator.
    pose proof (countChar_occurs _ _ Hoperator) as Ho.
    destruct conditions as [|first rest]; [discriminate Hrun|].
    destruct (isString_eq operator "NOT").
    + destruct (conditionToPartiQL first parameters)
        as [message|[subClause ps1]] eqn:Hfirst; [discriminate Hrun|].
      injection Hrun as <- <-.
      cbn [forallb] in Hsubs. apply andb_true_iff in Hsubs as [Hp _].
      rewrite (Forall_inv IH _ _ _ Hp Hfirst), !countChar_append.
      cbn. lia.
    + destruct (whereClauses (first :: rest) parameters)
        as [message|[subClauses ps1]] eqn:Hall; [discriminate Hrun|].
      injection Hrun as <- <-.
      rewrite (whereClauses_placeholders _ IH _ _ _ Hsubs Hall).
      rewrite !countChar_append, countChar_join;
        [cbn; lia|rewrite !countChar_append, Ho; reflexivity].
Qed.

(** A SELECT statement has as many ['?'] as parameters, when the names it
    quotes - table, index, fields - and the operators hold no ['?']: each
    parameter is bound to a placeholder of its own. *)
Theorem buildSelectStatement_placeholders operation built :
  occurs questionMark (TrackedQueryOperation.tableName operation) = false ->
  occurs questionMark
    (default "" (TrackedQueryOperation.indexName operation)) = false ->
  forallb plainNames (TrackedQueryOperation.filters operation) = true ->
  buildSelectStatement operation = inr built ->
  countChar questionMark (PartiQLStatement.statement built)
  = length (PartiQLStatement.parameters built).
Proof.
  intros Htable Hindex Hplain. unfold buildSelectStatement.
  assert (Hhead :
            countChar questionMark
              (if truthyString (TrackedQueryOperation.indexName operation)
               then ("SELECT * FROM " +:+
                     quoted (TrackedQueryOperation.tableName operation))
                    +:+ "." +:+
                    quoted
                      (default ""
                         (TrackedQueryOperation.indexName operation))
               else "SELECT * FROM " +:+
                    quoted (TrackedQueryOperation.tableName operation))
            = 0%nat).
  { destruct (truthyString _);
      rewrite !countChar_append, !countChar_quoted by assumption;
      reflexivity. }
  destruct (TrackedQueryOperation.filters operation) as [|filter rest]
    eqn:Hfilters.
  - intros Hrun. injection Hrun as <-.
    cbn [PartiQLStatement.statement PartiQLStatement.parameters].
    rewrite Hhead. reflexivity.
  - destruct (whereClauses (filter :: rest) []) as [message|[clauses ps]]
      eqn:Hall; [intros Hrun; discriminate Hrun|].
    intros Hrun. injection Hrun as <-.
    cbn [PartiQLStatement.statement PartiQLStatement.parameters].
    rewrite (whereClauses_placeholders (filter :: rest)
               ltac:(apply Forall_forall; intros c _;
                     apply conditionToPartiQL_placeholders)
               _ _ _ Hplain Hall).
    rewrite !countChar_append, Hhead, countChar_join by reflexivity.
    reflexivity.
Qed.






End Placeholders.

Section PlaceholderExamples.
#[local] Existing Instance integerHost.

Lemma buildSelectStatement_placeholders_witness :
  countChar questionMark
    ("SELECT * FROM " +:+ quoted "Todo" +:+ " WHERE " +:+
     quoted "listId" +:+ " = ? AND (" +:+ quoted "done" +:+ " = ? OR " +:+
     quoted "id" +:+ " BETWEEN ? AND ?)")
  = 4%nat.
Proof.
  apply (buildSelectStatement_placeholders (H := integerHost)
           (todoQuery
              [FilterBuilderImpl.eq "listId" (JStr "L1");
               FilterBuilderImpl.or
                 [FilterBuilderImpl.eq "done" (JBool false);
                  FilterBuilderImpl.between "id" (JStr "a") (JStr "m")]])
           {| PartiQLStatement.statement :=
                "SELECT * FROM " +:+ quoted "Todo" +:+ " WHERE " +:+
                quoted "listId" +:+ " = ? AND (" +:+ quoted "done" +:+
                " = ? OR " +:+ quoted "id" +:+ " BETWEEN ? AND ?)";
              PartiQLStatement.parameters :=
                [JStr "L1"; JBool false; JStr "a"; JStr "m"] |}).
  - reflexivity.
  - reflexivity.
  - reflexivity.
  - vm_compute. reflexivity.
Defined.


End PlaceholderExamples.

(** ** The WHERE clause of the replayed query *)

Section WhereClauseFacts.
Context `{JsHost}.

Lemma nonempty_clause (a b : string) : a <> "" -> a +:+ b <> "".
Proof. destruct a; [contradiction|intros _ Heq; discriminate Heq]. Qed.




Lemma replaceQuotes_injective s : forall t,
  replaceQuotes s = replaceQuotes t -> s = t.
Proof.
  induction s as [|c s IH]; intros [|d t] Heq.
  - reflexivity.
  - cbn [replaceQuotes] in Heq. destruct (Ascii.eqb d "'"); discriminate Heq.
  - cbn [replaceQuotes] in Heq. destruct (Ascii.eqb c "'"); discriminate Heq.
  - cbn [replaceQuotes] in Heq.
    destruct (Ascii.eqb_spec c "'"%char) as [->|Hc];
      destruct (Ascii.eqb_spec d "'"%char) as [->|Hd].
    + injection Heq as Heq. rewrite (IH t Heq). reflexivity.
    + injection Heq as Hhead _. congruence.
    + injection Heq as Hhead _. congruence.
    + injection Heq as -> Heq. rewrite (IH t Heq). reflexivity.
Qed.

Lemma append_length (a b : string) :
  String.length (a +:+ b) = (String.length a + String.length b)%nat.
Proof.
  induction a as [|c a IH]; [reflexivity|].
  change (S (String.length (a +:+ b))
          = S (String.length a + String.length b)).
  rewrite IH. reflexivity.
Qed.

Lemma append_cancel_r (a b c : string) : a +:+ c = b +:+ c -> a = b.
Proof.
  revert b. induction a as [|x a IH]; intros [|y b] Heq.
  - reflexivity.
  - exfalso. apply (f_equal String.length) in Heq.
    rewrite !append_length in Heq. cbn [String.length] in Heq. lia.
  - exfalso. apply (f_equal String.length) in Heq.
    rewrite !append_length in Heq. cbn [String.length] in Heq. lia.
  - change (String x (a +:+ c) = String y (b +:+ c)) in Heq.
    injection Heq as -> Heq. rewrite (IH b Heq). reflexivity.
Qed.

Lemma countChar_replaceQuotes s :
  countChar "'" (replaceQuotes s) = (2 * countChar "'" s)%nat.
Proof.
  induction s as [|c s IH]; [reflexivity|]. cbn [replaceQuotes countChar].
  destruct (Ascii.eqb_spec c "'"%char) as [->|Hc].
  - cbn [countChar]. rewrite Ascii.eqb_refl, IH. lia.
  - cbn [countChar]. destruct (Ascii.eqb_spec c "'"%char); [contradiction|].
    exact IH.
Qed.

(** Escaping a string loses nothing - two strings with the same literal
    are the same - and doubles each quote of the string between the two
    that enclose the literal. *)
Theorem escapeValue_string s :
  (forall t, escapeValue (JStr s) = escapeValue (JStr t) -> s = t) /\
  countChar "'" (escapeValue (JStr s)) = (2 + 2 * countChar "'" s)%nat.
Proof.
  split.
  - intros t Heq. cbn [escapeValue] in Heq.
    change (String "'" (replaceQuotes s +:+ "'")
            = String "'" (replaceQuotes t +:+ "'")) in Heq.
    injection Heq as Heq. apply append_cancel_r in Heq.
    apply replaceQuotes_injective. exact Heq.
  - cbn [escapeValue].
    change (countChar "'" (String "'" (replaceQuotes s +:+ "'"))
            = (2 + 2 * countChar "'" s)%nat).
    cbn [countChar]. rewrite Ascii.eqb_refl.
    assert (Happ : forall a b,
              countChar "'" (a +:+ b)
              = (countChar "'" a + countChar "'" b)%nat).
    { intros a b. induction a as [|d a IHa]; [reflexivity|].
      change (countChar "'" (String d (a +:+ b))
              = (countChar "'" (String d a) + countChar "'" b)%nat).
      cbn [countChar]. rewrite IHa. destruct (Ascii.eqb d "'"); reflexivity. }
    rewrite Happ, countChar_replaceQuotes. cbn. lia.
Qed.

End WhereClauseFacts.

Section WhereClauseExamples.
#[local] Existing Instance integerHost.


End WhereClauseExamples.
